(** * Veritas wallet core: Base58, WIF keys, addresses and transaction signing

    A shallow embedding of [utils/crypto.ts] (Veritas Cryptographic Protocol
    v4.3).  Byte arrays ([Uint8Array]) are lists of [Byte.byte], JavaScript
    strings are lists of UTF-16 code units, [BigInt] values are [Z] with the
    truncating division and remainder of the language, and [number] values
    are IEEE-754 binary64 floats in the executable [SpecFloat] model.

    Thrown errors, rejected promises and the calls made to the host
    (Web Crypto digest, HMAC key import and signing, the clock) are recorded
    by a small trace-and-error monad [Comp]. *)

From Stdlib Require Import String Ascii.
From Stdlib.Strings Require Import Byte.
From Stdlib Require Import ZArith List Lia Bool SpecFloat DecimalString.
Import ListNotations.

Local Open Scope Z_scope.

(* ------------------------------------------------------------------ *)
(** ** Data *)

(** A [Uint8Array]. *)
Definition bytes := list byte.

(** A JavaScript string: its sequence of UTF-16 code units. *)
Definition jsstring := list N.

Definition js (s : string) : jsstring :=
  map N_of_ascii (list_ascii_of_string s).

Definition byte_to_Z (b : byte) : Z := Z.of_N (Byte.to_N b).

(** Storing a number into a [Uint8Array] element keeps it modulo 256. *)
Definition byte_of_Z (z : Z) : byte :=
  match Byte.of_N (Z.to_N (z mod 256)) with
  | Some b => b
  | None => x00
  end.

Definition jsstring_eqb (a b : jsstring) : bool :=
  if list_eq_dec N.eq_dec a b then true else false.

Definition bytes_eqb (a b : bytes) : bool :=
  if list_eq_dec Byte.byte_eq_dec a b then true else false.

Definition obyte_eqb (a b : option byte) : bool :=
  match a, b with
  | Some x, Some y => Byte.eqb x y
  | None, None => true
  | _, _ => false
  end.

(* ------------------------------------------------------------------ *)
(** ** Computations: host calls, exceptions and promises *)

(** Calls into the host that the module makes. *)
Inductive event : Type :=
| EvDigest (data : bytes)              (* crypto.subtle.digest('SHA-256', data) *)
| EvImportKey (key : bytes)            (* crypto.subtle.importKey('raw', key, HMAC/SHA-256) *)
| EvHmacSign (key data : bytes)        (* crypto.subtle.sign('HMAC', key, data) *)
| EvNow (t : Z).                       (* Date.now() *)

Inductive exn : Type :=
| JsError (msg : jsstring)             (* new Error(msg) *)
| RangeError                           (* typed-array set out of bounds *)
| DataError.                           (* importKey on empty key material *)

(** A computation yields the host calls it made, in order, and either the
    exception it threw (a rejected promise for the async functions) or its
    value. *)
Definition Comp (A : Type) : Type := (list event * (exn + A))%type.

Definition ret {A} (a : A) : Comp A := ([], inr a).
Definition throw {A} (e : exn) : Comp A := ([], inl e).

Definition bind {A B} (m : Comp A) (f : A -> Comp B) : Comp B :=
  match m with
  | (t, inl e) => (t, inl e)
  | (t, inr a) => let '(t', r) := f a in (t ++ t', r)
  end.

(** [try { m } catch { h }] *)
Definition try_catch {A} (m : Comp A) (h : exn -> Comp A) : Comp A :=
  match m with
  | (t, inl e) => let '(t', r) := h e in (t ++ t', r)
  | (t, inr a) => (t, inr a)
  end.

Definition trace {A} (m : Comp A) : list event := fst m.
Definition outcome {A} (m : Comp A) : exn + A := snd m.

Declare Scope comp_scope.
Delimit Scope comp_scope with comp.
Notation "x <- m ;; k" := (bind m (fun x => k))
  (at level 61, m at next level, right associativity) : comp_scope.
Notation "' p <- m ;; k" := (bind m (fun x => let 'p := x in k))
  (at level 61, p pattern, m at next level, right associativity) : comp_scope.
Local Open Scope comp_scope.

Definition is_digest (e : event) : bool :=
  match e with EvDigest _ => true | _ => false end.

(* ------------------------------------------------------------------ *)
(** ** Typed arrays and strings of the language *)

(** [new Uint8Array(n)] *)
Definition new_Uint8Array (n : nat) : bytes := repeat x00 n.

(** [a[i] = v]: a store outside the array is ignored. *)
Fixpoint ta_store (a : bytes) (i : nat) (v : byte) : bytes :=
  match a, i with
  | [], _ => []
  | _ :: rest, O => v :: rest
  | x :: rest, S j => x :: ta_store rest j v
  end.

(** [target.set(src, offset)]: throws a RangeError when [src] does not fit. *)
Definition ta_set (target src : bytes) (offset : nat) : Comp bytes :=
  if (length src + offset <=? length target)%nat
  then ret (firstn offset target ++ src ++ skipn (offset + length src) target)
  else throw RangeError.

(** [a.slice(b, e)] for [0 <= b <= e]. *)
Definition slice {A} (a : list A) (b e : nat) : list A :=
  firstn (e - b) (skipn b a).

(** [a.slice(b)] for [0 <= b]. *)
Definition slice_from {A} (a : list A) (b : nat) : list A := skipn b a.

(** [s.substring(0, n)] *)
Definition substring0 (s : jsstring) (n : nat) : jsstring := firstn n s.

(** [s.padStart(n, '0')] *)
Definition padStart0 (s : jsstring) (n : nat) : jsstring :=
  repeat 48%N (n - length s) ++ s.

(** [s[i]] used in a string concatenation: a one-character string, or the
    text of [undefined] when [i] is out of range. *)
Definition char_at_concat (s : jsstring) (i : Z) : jsstring :=
  match (if i <? 0 then None else nth_error s (Z.to_nat i)) with
  | Some c => [c]
  | None => js "undefined"
  end.

(** [s.indexOf(c)] for a one-character string [c]; [-1] when absent. *)
Fixpoint indexOf_from (s : jsstring) (c : N) (i : Z) : Z :=
  match s with
  | [] => -1
  | d :: rest => if N.eqb d c then i else indexOf_from rest c (i + 1)
  end.

Definition indexOf (s : jsstring) (c : N) : Z := indexOf_from s c 0.

(* ------------------------------------------------------------------ *)
(** ** Base58 *)

Definition ALPHABET : jsstring :=
  js "123456789ABCDEFGHJKLMNPQRSTUVWXYZabcdefghijkmnopqrstuvwxyz".

(** First loop of both codecs' encoder side: [x = x * 256n + BigInt(buffer[i])]. *)
Definition bytes_to_bigint (buffer : bytes) : Z :=
  fold_left (fun x b => x * 256 + byte_to_Z b) buffer 0.

(** [while (x > 0n) { result = ALPHABET[Number(x % 58n)] + result; x /= 58n; }]
    run for at most [fuel] iterations. *)
Fixpoint encode_digits (fuel : nat) (x : Z) (result : jsstring) : jsstring :=
  match fuel with
  | O => result
  | S fuel' =>
      if 0 <? x
      then encode_digits fuel' (Z.quot x 58)
             (char_at_concat ALPHABET (Z.rem x 58) ++ result)
      else result
  end.

(** [for (i = 0; i < buffer.length && buffer[i] === 0; i++) result = ALPHABET[0] + result;] *)
Fixpoint encode_leading_zeros (buffer : bytes) (result : jsstring) : jsstring :=
  match buffer with
  | b :: rest =>
      if Byte.eqb b x00
      then encode_leading_zeros rest (char_at_concat ALPHABET 0 ++ result)
      else result
  | [] => result
  end.

(** Iterations granted to a [while (x > 0n) { ...; x /= d; }] loop with
    [d >= 2]: one more than the position of the highest set bit of [x]. *)
Definition loop_fuel (x : Z) : nat := S (Z.to_nat (Z.log2 x)).

Definition encodeBase58 (buffer : bytes) : jsstring :=
  let x := bytes_to_bigint buffer in
  let result := encode_digits (loop_fuel x) x [] in
  encode_leading_zeros buffer result.

(** First loop of [decodeBase58]; throws on a character outside the alphabet. *)
Fixpoint decode_value (str : jsstring) (x : Z) : Comp Z :=
  match str with
  | [] => ret x
  | c :: rest =>
      let charIndex := indexOf ALPHABET c in
      if charIndex =? -1
      then throw (JsError (js "Invalid Base58 character"))
      else decode_value rest (x * 58 + charIndex)
  end.

(** [while (x > 0n) { bytes.unshift(Number(x % 256n)); x /= 256n; }] *)
Fixpoint decode_bytes (fuel : nat) (x : Z) (acc : list Z) : list Z :=
  match fuel with
  | O => acc
  | S fuel' =>
      if 0 <? x
      then decode_bytes fuel' (Z.quot x 256) (Z.rem x 256 :: acc)
      else acc
  end.

(** [for (i = 0; i < str.length && str[i] === ALPHABET[0]; i++) bytes.unshift(0);] *)
Fixpoint decode_leading_zeros (str : jsstring) (acc : list Z) : list Z :=
  match str with
  | c :: rest =>
      if jsstring_eqb [c] (char_at_concat ALPHABET 0)
      then decode_leading_zeros rest (0 :: acc)
      else acc
  | [] => acc
  end.

Definition decodeBase58 (str : jsstring) : Comp bytes :=
  x <- decode_value str 0 ;;
  let acc := decode_bytes (loop_fuel x) x [] in
  let acc := decode_leading_zeros str acc in
  ret (map byte_of_Z acc).

(* ------------------------------------------------------------------ *)
(** ** The host's hash primitives

    [crypto.subtle.digest('SHA-256', _)] and HMAC signing are functions of
    the host, not of the module; they are modelled by the algorithms the Web
    Crypto API prescribes for them: SHA-256 of FIPS 180-4 and HMAC of
    RFC 2104.  Words are integers below [2^32]. *)

Module SHA256.

Definition modulus : Z := 4294967296.

Definition add32 (a b : Z) : Z := (a + b) mod modulus.

Definition rotr (n x : Z) : Z :=
  (Z.lor (Z.shiftr x n) (Z.shiftl x (32 - n))) mod modulus.

Definition shr (n x : Z) : Z := Z.shiftr x n.

Definition not32 (x : Z) : Z := Z.lxor x 4294967295.

Definition Ch (x y z : Z) : Z := Z.lxor (Z.land x y) (Z.land (not32 x) z).

Definition Maj (x y z : Z) : Z :=
  Z.lxor (Z.lxor (Z.land x y) (Z.land x z)) (Z.land y z).

Definition Sigma0 (x : Z) : Z := Z.lxor (Z.lxor (rotr 2 x) (rotr 13 x)) (rotr 22 x).
Definition Sigma1 (x : Z) : Z := Z.lxor (Z.lxor (rotr 6 x) (rotr 11 x)) (rotr 25 x).
Definition sigma0 (x : Z) : Z := Z.lxor (Z.lxor (rotr 7 x) (rotr 18 x)) (shr 3 x).
Definition sigma1 (x : Z) : Z := Z.lxor (Z.lxor (rotr 17 x) (rotr 19 x)) (shr 10 x).

(** The prime numbers below [n], in increasing order. *)
Definition primes_below (n : nat) : list Z :=
  filter (fun q => forallb (fun d => negb (q mod d =? 0))
                     (map Z.of_nat (seq 2 (Z.to_nat q - 2))))
         (map Z.of_nat (seq 2 (n - 2))).

(** Integer cube root, found bit by bit from bit [bits - 1] down. *)
Fixpoint cube_root (bits : nat) (n r : Z) : Z :=
  match bits with
  | O => r
  | S b =>
      let c := r + 2 ^ Z.of_nat b in
      cube_root b n (if c * c * c <=? n then c else r)
  end.

(** The round constants: the first 32 bits of the fractional parts of the
    cube roots of the first 64 primes. *)
Definition K : list Z :=
  Eval vm_compute in
    map (fun q => cube_root 40 (q * 2 ^ 96) 0 mod modulus) (primes_below 312).

(** The eight working variables / the intermediate hash value. *)
Definition state : Type := (Z * Z * Z * Z * Z * Z * Z * Z)%type.

(** The first 32 bits of the fractional part of the square root of [q]. *)
Definition sqrt_fraction (q : Z) : Z := Z.sqrt (q * 2 ^ 64) mod modulus.

(** The initial hash value, from the first eight primes. *)
Definition H0 : state :=
  Eval vm_compute in
    (sqrt_fraction 2, sqrt_fraction 3, sqrt_fraction 5, sqrt_fraction 7,
     sqrt_fraction 11, sqrt_fraction 13, sqrt_fraction 17, sqrt_fraction 19).

(** Big-endian bytes of the low [8 * n] bits of [x]. *)
Fixpoint be_bytes (n : nat) (x : Z) : bytes :=
  match n with
  | O => []
  | S n' => be_bytes n' (Z.shiftr x 8) ++ [byte_of_Z x]
  end.

Definition be_word (b3 b2 b1 b0 : byte) : Z :=
  ((byte_to_Z b3 * 256 + byte_to_Z b2) * 256 + byte_to_Z b1) * 256 + byte_to_Z b0.

(** Padding: a one bit, zero bits up to 56 modulo 64 bytes, and the length
    of the message in bits on 64 bits. *)
Definition pad (msg : bytes) : bytes :=
  let len := Z.of_nat (length msg) in
  msg ++ [x80] ++ repeat x00 (Z.to_nat ((55 - len) mod 64)) ++ be_bytes 8 (len * 8).

Fixpoint words_of (fuel : nat) (bs : bytes) : list Z :=
  match fuel, bs with
  | S fuel', b3 :: b2 :: b1 :: b0 :: rest => be_word b3 b2 b1 b0 :: words_of fuel' rest
  | _, _ => []
  end.

(** The message schedule: [n] more words after the ones in [w]. *)
Fixpoint extend (n : nat) (w : list Z) : list Z :=
  match n with
  | O => w
  | S n' =>
      let t := length w in
      let wt := add32 (add32 (add32 (sigma1 (nth (t - 2) w 0)) (nth (t - 7) w 0))
                             (sigma0 (nth (t - 15) w 0)))
                      (nth (t - 16) w 0) in
      extend n' (w ++ [wt])
  end.

Definition round (s : state) (kw : Z * Z) : state :=
  let '(a, b, c, d, e, f, g, h) := s in
  let '(k, w) := kw in
  let T1 := add32 (add32 (add32 (add32 h (Sigma1 e)) (Ch e f g)) k) w in
  let T2 := add32 (Sigma0 a) (Maj a b c) in
  (add32 T1 T2, a, b, c, add32 d T1, e, f, g).

Definition compress (hs : state) (block : bytes) : state :=
  let w := extend 48 (words_of 16 block) in
  let '(a, b, c, d, e, f, g, h) := fold_left round (combine K w) hs in
  let '(h0, h1, h2, h3, h4, h5, h6, h7) := hs in
  (add32 h0 a, add32 h1 b, add32 h2 c, add32 h3 d,
   add32 h4 e, add32 h5 f, add32 h6 g, add32 h7 h).

Fixpoint blocks (fuel : nat) (bs : bytes) (hs : state) : state :=
  match fuel with
  | O => hs
  | S fuel' =>
      match bs with
      | [] => hs
      | _ => blocks fuel' (skipn 64 bs) (compress hs (firstn 64 bs))
      end
  end.

Definition digest_bytes (hs : state) : bytes :=
  let '(h0, h1, h2, h3, h4, h5, h6, h7) := hs in
  be_bytes 4 h0 ++ be_bytes 4 h1 ++ be_bytes 4 h2 ++ be_bytes 4 h3 ++
  be_bytes 4 h4 ++ be_bytes 4 h5 ++ be_bytes 4 h6 ++ be_bytes 4 h7.

Definition hash (msg : bytes) : bytes :=
  let padded := pad msg in
  digest_bytes (blocks (length padded) padded H0).

(** HMAC with SHA-256 (block size 64 bytes). *)
Definition xor_byte (c : Z) (b : byte) : byte :=
  byte_of_Z (Z.lxor (byte_to_Z b) c).

Definition hmac (key data : bytes) : bytes :=
  let k0 := if (64 <? length key)%nat then hash key else key in
  let k := k0 ++ repeat x00 (64 - length k0) in
  hash (map (xor_byte 0x5c) k ++ hash (map (xor_byte 0x36) k ++ data)).

End SHA256.

(** The character of a hexadecimal digit, lowercase. *)
Definition hex_digit (d : Z) : N :=
  if d <? 10 then Z.to_N (48 + d) else Z.to_N (87 + d).


(* ------------------------------------------------------------------ *)
(** ** Strings from the host: [TextEncoder] and number formatting *)

Definition byte_of_N (n : N) : byte := byte_of_Z (Z.of_N n).

Definition replacement_char : bytes := [xef; xbf; xbd].

(** [new TextEncoder().encode(s)]: the UTF-8 bytes of [s]; a surrogate code
    unit that is not part of a pair is encoded as U+FFFD. *)
Fixpoint utf8_encode (s : jsstring) : bytes :=
  match s with
  | [] => []
  | c :: rest =>
      if (c <? 0x80)%N then byte_of_N c :: utf8_encode rest
      else if (c <? 0x800)%N then
        byte_of_N (0xC0 + c / 64) :: byte_of_N (0x80 + c mod 64) :: utf8_encode rest
      else if ((0xD800 <=? c) && (c <? 0xDC00))%N then
        match rest with
        | d :: rest' =>
            if ((0xDC00 <=? d) && (d <? 0xE000))%N then
              let cp := (0x10000 + (c - 0xD800) * 1024 + (d - 0xDC00))%N in
              byte_of_N (0xF0 + cp / 262144) ::
              byte_of_N (0x80 + (cp / 4096) mod 64) ::
              byte_of_N (0x80 + (cp / 64) mod 64) ::
              byte_of_N (0x80 + cp mod 64) :: utf8_encode rest'
            else replacement_char ++ utf8_encode rest
        | [] => replacement_char
        end
      else if ((0xDC00 <=? c) && (c <? 0xE000))%N then
        replacement_char ++ utf8_encode rest
      else
        byte_of_N (0xE0 + c / 4096) ::
        byte_of_N (0x80 + (c / 64) mod 64) ::
        byte_of_N (0x80 + c mod 64) :: utf8_encode rest
  end.

(** Decimal digits of an integer, with a minus sign when negative. *)
Definition decimal_of_Z (z : Z) : jsstring :=
  js (NilZero.string_of_int (Z.to_int z)).

(** [while (x > 0) { acc = digit(x % 16) + acc; x = x / 16 }] *)
Fixpoint hex_digits (fuel : nat) (x : Z) (acc : jsstring) : jsstring :=
  match fuel with
  | O => acc
  | S fuel' =>
      if 0 <? x
      then hex_digits fuel' (Z.quot x 16) (hex_digit (Z.rem x 16) :: acc)
      else acc
  end.

(** Lowercase hexadecimal digits of a non-negative integer; ["0"] for zero. *)
Definition hex_of_Z (x : Z) : jsstring :=
  if x <=? 0 then js "0" else hex_digits (loop_fuel x) x [].

(** A [number]: an IEEE-754 binary64 value, in the canonical form that
    [binary_normalize] and the arithmetic of [SpecFloat] produce. *)
Definition number : Type := spec_float.
Definition prec : Z := 53.
Definition emax : Z := 1024.

Definition number_of_Z (z : Z) : number := binary_normalize prec emax z 0 false.

(** The number [m * 2^e]. *)
Definition number_of_dyadic (m e : Z) : number := binary_normalize prec emax m e false.

(** [x * y] on numbers. *)
Definition number_mul (x y : number) : number := SFmul prec emax x y.

(** What [Math.floor] returns: NaN, an infinity, or an integer (the zero
    stands for both signed zeros, which print alike). *)
Inductive integral : Type :=
| IntNaN
| IntInfinity (negative : bool)
| IntVal (z : Z).

(** [Math.floor(x)] *)
Definition Math_floor (x : number) : integral :=
  match x with
  | S754_nan => IntNaN
  | S754_infinity s => IntInfinity s
  | S754_zero _ => IntVal 0
  | S754_finite s m e =>
      let v := cond_Zopp s (Zpos m) in
      IntVal (if 0 <=? e then v * 2 ^ e else Z.shiftr v (- e))
  end.

(** [n.toString(16)] for the result of [Math.floor].  ECMA-262 leaves the
    digits of a radix other than 10 to the implementation; every engine
    prints the exact digits of an integer below [2^53], and above it engines
    differ in the digits below the 53-bit significand (exact, or filled with
    zeros), not in their number.  The digits here are the exact ones, and
    the statements below rely on the value of the printed text only for
    integers below [2^53]. *)
Definition toString16 (n : integral) : jsstring :=
  match n with
  | IntNaN => js "NaN"
  | IntInfinity s => if s then js "-Infinity" else js "Infinity"
  | IntVal z => if z <? 0 then js "-" ++ hex_of_Z (- z) else hex_of_Z z
  end.

(** [Number::toString] in radix 10 (ECMA-262): the shortest decimal digits
    that read back as the same number, laid out in positional or in
    exponent notation. *)
Module NumberToString.

(** Comparison of [a * 2^ea] with [s * 10^p]. *)
Definition scaled_cmp (a ea s p : Z) : comparison :=
  Z.compare (a * 2 ^ (Z.max 0 ea) * 10 ^ (Z.max 0 (- p)))
            (s * 10 ^ (Z.max 0 p) * 2 ^ (Z.max 0 (- ea))).

(** Does [s * 10^p] round to the number [m * 2^e]?  The rounding interval
    is bounded by the midpoints to the neighbouring numbers, and contains
    them when [m] is even. *)
Definition rounds_to (m e s p : Z) : bool :=
  let lo := 4 * m - (if (m =? 2 ^ 52) && (-1074 <? e) then 1 else 2) in
  let hi := 4 * m + 2 in
  let inclusive := Z.even m in
  (match scaled_cmp lo (e - 2) s p with
   | Lt => true | Eq => inclusive | Gt => false end) &&
  (match scaled_cmp hi (e - 2) s p with
   | Gt => true | Eq => inclusive | Lt => false end).

(** The largest [E] with [10^E <= m * 2^e]. *)
Definition floor_log10 (m e : Z) : Z :=
  let E0 := ((Z.log2 m + e) * 1233) / 4096 in
  let le10 E := match scaled_cmp m e 1 E with Lt => false | _ => true end in
  if le10 (E0 + 1) then E0 + 1 else if le10 E0 then E0 else E0 - 1.

(** The candidates with [k] digits: the decimals just below and just above
    the number at that precision; the closer one that reads back wins, the
    even one on a tie. *)
Definition candidate (m e E k : Z) : option (Z * Z) :=
  let p := E - k + 1 in
  let s0 := (m * 2 ^ (Z.max 0 e) * 10 ^ (Z.max 0 (- p)))
            / (10 ^ (Z.max 0 p) * 2 ^ (Z.max 0 (- e))) in
  let s1 := s0 + 1 in
  let up := if s1 =? 10 ^ k then (10 ^ (k - 1), p + 1) else (s1, p) in
  match rounds_to m e s0 p, rounds_to m e s1 p with
  | true, true =>
      match scaled_cmp (2 * m) e (2 * s0 + 1) p with
      | Lt => Some (s0, p)
      | Gt => Some up
      | Eq => if Z.even s0 then Some (s0, p) else Some up
      end
  | true, false => Some (s0, p)
  | false, true => Some up
  | false, false => None
  end.

Fixpoint shortest (m e E : Z) (ks : list Z) : Z * Z :=
  match ks with
  | [] => (m * 2 ^ (Z.max 0 e), 0)
  | k :: ks' =>
      match candidate m e E k with
      | Some sp => sp
      | None => shortest m e E ks'
      end
  end.

Definition layout (s p : Z) : jsstring :=
  let ds := decimal_of_Z s in
  let k := Z.of_nat (length ds) in
  let n := p + k in
  if (k <=? n) && (n <=? 21) then ds ++ repeat 48%N (Z.to_nat (n - k))
  else if (0 <? n) && (n <=? 21) then
    firstn (Z.to_nat n) ds ++ js "." ++ skipn (Z.to_nat n) ds
  else if (-6 <? n) && (n <=? 0) then
    js "0." ++ repeat 48%N (Z.to_nat (- n)) ++ ds
  else
    let ex := n - 1 in
    let exps := js (if ex <? 0 then "e-" else "e+") ++ decimal_of_Z (Z.abs ex) in
    if k =? 1 then ds ++ exps
    else firstn 1 ds ++ js "." ++ skipn 1 ds ++ exps.

(** A binary64 number needs at most 17 decimal digits. *)
Definition digit_counts : list Z := map Z.of_nat (seq 1 17).

Definition toString (x : number) : jsstring :=
  match x with
  | S754_nan => js "NaN"
  | S754_zero _ => js "0"
  | S754_infinity s => if s then js "-Infinity" else js "Infinity"
  | S754_finite s m e =>
      let '(d, p) := shortest (Zpos m) e (floor_log10 (Zpos m) e) digit_counts in
      (if s then js "-" else []) ++ layout d p
  end.

End NumberToString.

(** [b.toString(16).padStart(2, '0')] for an array element [b]. *)
Definition byte_hex (b : byte) : jsstring :=
  padStart0 (hex_of_Z (byte_to_Z b)) 2.

(* ------------------------------------------------------------------ *)
(** ** Host calls *)

(** [await crypto.subtle.digest('SHA-256', data)] *)
Definition subtle_digest (data : bytes) : Comp bytes :=
  ([EvDigest data], inr (SHA256.hash data)).

(** An HMAC [CryptoKey]: the host keeps the raw key material. *)
Record CryptoKey : Type := { key_material : bytes }.

(** [await crypto.subtle.importKey('raw', keyData, {name: 'HMAC', hash:
    'SHA-256'}, false, ['sign'])]: empty key material is a DataError. *)
Definition subtle_importKey (keyData : bytes) : Comp CryptoKey :=
  match keyData with
  | [] => ([EvImportKey keyData], inl DataError)
  | _ => ([EvImportKey keyData], inr {| key_material := keyData |})
  end.

(** [await crypto.subtle.sign('HMAC', key, data)] *)
Definition subtle_sign (key : CryptoKey) (data : bytes) : Comp bytes :=
  ([EvHmacSign (key_material key) data],
   inr (SHA256.hmac (key_material key) data)).

(** [Date.now()] when the clock shows [now] milliseconds. *)
Definition Date_now (now : Z) : Comp number :=
  ([EvNow now], inr (number_of_Z now)).

(* ------------------------------------------------------------------ *)
(** ** The wallet functions *)

Definition doubleSha256 (data : bytes) : Comp bytes :=
  first <- subtle_digest data ;;
  second <- subtle_digest first ;;
  ret second.

(** [for (let i = 0; i < 4; i++) if (checksum[i] !== calculatedChecksum[i])
    return false; return true;] *)
Definition checksum_loop (checksum calculatedChecksum : bytes) : bool :=
  forallb (fun i => obyte_eqb (nth_error checksum i) (nth_error calculatedChecksum i))
          [0; 1; 2; 3]%nat.

Definition validateWIF (wif : jsstring) : Comp bool :=
  try_catch
    (decoded <- decodeBase58 wif ;;
     if negb (length decoded =? 38)%nat then ret false
     else if negb (obyte_eqb (nth_error decoded 0) (Some x80)) then ret false
     else if negb (obyte_eqb (nth_error decoded 33) (Some x01)) then ret false
     else
       let payload := slice decoded 0 34 in
       let checksum := slice_from decoded 34 in
       calculated <- doubleSha256 payload ;;
       let calculatedChecksum := slice calculated 0 4 in
       ret (checksum_loop checksum calculatedChecksum))
    (fun _ => ret false).

Definition deriveAddressFromPrivKey (privKey : bytes) : Comp jsstring :=
  pubKey <- subtle_digest privKey ;;
  hashed <- subtle_digest pubKey ;;
  let hash160 := slice hashed 0 20 in
  let version := x00 in
  let payload := new_Uint8Array 21 in
  let payload := ta_store payload 0 version in
  payload <- ta_set payload hash160 1 ;;
  doubled <- doubleSha256 payload ;;
  let checksum := slice doubled 0 4 in
  let finalBuffer := new_Uint8Array 25 in
  finalBuffer <- ta_set finalBuffer payload 0 ;;
  finalBuffer <- ta_set finalBuffer checksum 21 ;;
  ret (encodeBase58 finalBuffer).

Definition deriveAddressFromWIF (wif : jsstring) : Comp jsstring :=
  isValid <- validateWIF wif ;;
  if negb isValid then throw (JsError (js "Invalid WIF"))
  else
    decoded <- decodeBase58 wif ;;
    let privKey := slice decoded 1 33 in
    deriveAddressFromPrivKey privKey.

Definition ADDRESS_TAG : jsstring := js "VERITAS_PSI_STOCHASTIC_FLUX_958.312108".
Definition WIF_TAG : jsstring := js "SEC_KEY_DERIVATION_ACTIVE_UNTRAMMELLED".

Definition generateVeritasAddress (seed : jsstring) : Comp jsstring :=
  let entropy := utf8_encode (seed ++ ADDRESS_TAG) in
  privKey <- subtle_digest entropy ;;
  deriveAddressFromPrivKey privKey.

(** The part of [deriveWIF] after the private key is known: the 34-byte
    payload, its checksum and the Base58 text of the 38 bytes. *)
Definition wif_of_privKey (privKey : bytes) : Comp jsstring :=
  let version := x80 in
  let compressedFlag := x01 in
  let payload := new_Uint8Array 34 in
  let payload := ta_store payload 0 version in
  payload <- ta_set payload privKey 1 ;;
  let payload := ta_store payload 33 compressedFlag in
  doubled <- doubleSha256 payload ;;
  let checksum := slice doubled 0 4 in
  let finalBuffer := new_Uint8Array 38 in
  finalBuffer <- ta_set finalBuffer payload 0 ;;
  finalBuffer <- ta_set finalBuffer checksum 34 ;;
  ret (encodeBase58 finalBuffer).

Definition deriveWIF (seed : jsstring) : Comp jsstring :=
  let entropy := utf8_encode (seed ++ WIF_TAG) in
  privKey <- subtle_digest entropy ;;
  wif_of_privKey privKey.

Record SignedTx : Type := { txid : jsstring; raw : jsstring; signature : jsstring }.

(** [Math.floor(amount * 100000000).toString(16).padStart(16, '0')] *)
Definition amountSats (amount : number) : jsstring :=
  padStart0 (toString16 (Math_floor (number_mul amount (number_of_Z 100000000)))) 16.

Definition signSequestrationTx (wif : jsstring) (amount : number)
    (destination : jsstring) (now : Z) : Comp SignedTx :=
  isValid <- validateWIF wif ;;
  if negb isValid then throw (JsError (js "Invalid WIF key. Signing rejected."))
  else
    decoded <- decodeBase58 wif ;;
    let privKeyBytes := slice decoded 1 33 in
    key <- subtle_importKey privKeyBytes ;;
    t <- Date_now now ;;
    let txData := utf8_encode (NumberToString.toString amount ++ js ":" ++
                               destination ++ js ":" ++ NumberToString.toString t) in
    signatureBuffer <- subtle_sign key txData ;;
    let signature := concat (map byte_hex signatureBuffer) in
    let rawTx := js "0200000001" ++ substring0 signature 64 ++
                 js "00000000ffffffff01" ++ amountSats amount ++
                 js "1976a914" ++ substring0 destination 40 ++
                 js "88ac00000000" in
    doubled <- doubleSha256 (utf8_encode rawTx) ;;
    let txid := fold_left (fun str b => str ++ byte_hex b) (rev doubled) [] in
    ret {| txid := txid; raw := rawTx; signature := signature |}.

(* ------------------------------------------------------------------ *)
(** ** Definitions used by the statements *)

(** [doubleDigest(x) = digest(digest(x))] as a function of the bytes. *)
Definition double_digest (data : bytes) : bytes :=
  SHA256.hash (SHA256.hash data).

(** Lowercase hexadecimal text of a byte sequence: for each byte its high
    and its low four bits as a digit. *)
Definition hex_pair (b : byte) : jsstring :=
  [hex_digit (byte_to_Z b / 16); hex_digit (byte_to_Z b mod 16)].

Definition hex_of_bytes (bs : bytes) : jsstring := flat_map hex_pair bs.

Definition is_lower_hex (c : N) : bool :=
  ((48 <=? c) && (c <=? 57) || (97 <=? c) && (c <=? 102))%N.

Definition hex_digit_value (c : N) : Z :=
  if (c <=? 57)%N then Z.of_N c - 48 else Z.of_N c - 87.

(** The number a hexadecimal text denotes. *)
Definition hex_value (s : jsstring) : Z :=
  fold_left (fun a c => a * 16 + hex_digit_value c) s 0.

(** The character that stands for the Base58 digit [d]. *)
Definition b58_char (d : Z) : N := nth (Z.to_nat d) ALPHABET 0%N.

(** Value of a sequence of digits in radix 58, most significant first. *)
Definition b58_value (ds : list Z) (acc : Z) : Z :=
  fold_left (fun a d => a * 58 + d) ds acc.

Definition digit_ok (d : Z) : bool :=
  match char_at_concat ALPHABET d with
  | [c] => N.eqb c (b58_char d) && (indexOf ALPHABET c =? d)
           && (negb (N.eqb c 49) || (d =? 0))
  | _ => false
  end.

Fixpoint count_zeros (b : bytes) : nat :=
  match b with
  | x :: rest => if Byte.eqb x x00 then S (count_zeros rest) else O
  | [] => O
  end.

Fixpoint strip_zeros (b : bytes) : bytes :=
  match b with
  | x :: rest => if Byte.eqb x x00 then strip_zeros rest else b
  | [] => []
  end.

Definition no_leading_zero (b : bytes) : Prop :=
  match b with
  | [] => True
  | h :: _ => h <> x00
  end.

(** The structural checks of [validateWIF]: 38 bytes, version byte 0x80
    first, compression flag 0x01 at index 33. *)
Definition structure_ok (decoded : bytes) : bool :=
  (length decoded =? 38)%nat
  && obyte_eqb (nth_error decoded 0) (Some x80)
  && obyte_eqb (nth_error decoded 33) (Some x01).

(** The host calls of a checksum computation over [payload]. *)
Definition checksum_trace (payload : bytes) : list event :=
  [EvDigest payload; EvDigest (SHA256.hash payload)].

(** A key string is rejected when it does not decode, or decodes to
    something other than 38 bytes, or without the version byte or the
    compression flag in place, or with a checksum that is not the first four
    bytes of the double digest of the first 34 bytes. *)
Definition rejected (wif : jsstring) : Prop :=
  (exists e, outcome (decodeBase58 wif) = inl e) \/
  (exists decoded,
      outcome (decodeBase58 wif) = inr decoded /\
      (length decoded <> 38%nat \/
       nth_error decoded 0 <> Some x80 \/
       nth_error decoded 33 <> Some x01 \/
       slice_from decoded 34 <> slice (double_digest (slice decoded 0 34)) 0 4)).

(** KeyBlob: version byte, secret, compression flag, then the first four
    bytes of the double digest of those 34 bytes. *)
Definition key_payload (secret : bytes) : bytes := x80 :: secret ++ [x01].

Definition key_blob (secret : bytes) : bytes :=
  key_payload secret ++ slice (double_digest (key_payload secret)) 0 4.

(** IdentityBlob: version byte, the first 20 bytes of the digest of the
    digest of the secret, then the first four bytes of the double digest of
    those 21 bytes. *)
Definition identity_payload (secret : bytes) : bytes :=
  x00 :: slice (SHA256.hash (SHA256.hash secret)) 0 20.

Definition identity_blob (secret : bytes) : bytes :=
  identity_payload secret ++ slice (double_digest (identity_payload secret)) 0 4.

(** The payload that is signed: amount, destination and time, colon
    separated, in UTF-8. *)
Definition tx_data (amount : number) (destination : jsstring) (now : Z) : bytes :=
  utf8_encode (NumberToString.toString amount ++ js ":" ++ destination ++ js ":" ++
               NumberToString.toString (number_of_Z now)).

(** The protocol template with its three splices. *)
Definition raw_record (tag : jsstring) (amount : number) (destination : jsstring)
  : jsstring :=
  js "0200000001" ++ firstn 64 tag ++ js "00000000ffffffff01" ++ amountSats amount ++
  js "1976a914" ++ firstn 40 destination ++ js "88ac00000000".

(** The transaction that signing with [secret] produces. *)
Definition signed_tx (secret : bytes) (amount : number) (destination : jsstring)
    (now : Z) : SignedTx :=
  let tag := hex_of_bytes (SHA256.hmac secret (tx_data amount destination now)) in
  let rawTx := raw_record tag amount destination in
  {| txid := hex_of_bytes (rev (double_digest (utf8_encode rawTx)));
     raw := rawTx;
     signature := tag |}.

(** The host calls of signing, after the key has been validated. *)
Definition sign_trace (secret : bytes) (amount : number) (destination : jsstring)
    (now : Z) : list event :=
  [EvImportKey secret; EvNow now; EvHmacSign secret (tx_data amount destination now)]
  ++ checksum_trace (utf8_encode (raw (signed_tx secret amount destination now))).

(** *** Sample data *)

Definition zero_secret : bytes := repeat x00 32.

(** The key string of the all-zero secret. *)
Definition zero_key : jsstring :=
  js "KwDiBf89QgGbjEhKnhXJuH7LrciVrZi3qYjgd9M7rFU73Nd2Mcv1".

(** The same 34 payload bytes followed by a zero checksum. *)
Definition bad_checksum_key : jsstring :=
  js "KwDiBf89QgGbjEhKnhXJuH7LrciVrZi3qYjgd9M7rFU73NaKGteT".

(** The identity string of the all-zero secret. *)
Definition zero_identity : jsstring := js "14wQys5AaYeJ6qGkVC5Q9UcwMKwX1MHspW".

Definition sample_time : Z := 1700000000000.

(** The amounts 1.5 and 200000000000. *)
Definition amount_1_5 : number := number_of_dyadic 3 (-1).
Definition amount_2e11 : number := number_of_Z 200000000000.

(** *** Base58 texts *)

(** A character of the Base58 alphabet. *)
Definition in_alphabet (c : N) : Prop := In c ALPHABET.

(** Value of a sequence of byte values, most significant first. *)
Definition decode_digit_value (zs : list Z) (acc : Z) : Z :=
  fold_left (fun a z => a * 256 + z) zs acc.

(** The leading ['1'] characters of a text, and the rest. *)
Fixpoint count_ones (s : jsstring) : nat :=
  match s with
  | c :: rest => if N.eqb c 49 then S (count_ones rest) else O
  | [] => O
  end.

Fixpoint strip_ones (s : jsstring) : jsstring :=
  match s with
  | c :: rest => if N.eqb c 49 then strip_ones rest else s
  | [] => []
  end.

(** A destination of 40 hexadecimal characters. *)
Definition hex_destination : jsstring := js "00112233445566778899aabbccddeeff00112233".

(* ------------------------------------------------------------------ *)
(** ** The vault handlers of the dashboard ([App.tsx])

    The component keeps its state in cells; a handler reads the cells of the
    render that created it and writes through the setters.  A handler is
    modelled run on its own: from the state it was created in to the state
    after its last setter, with no other update in between.  A timer it
    starts is returned beside the state. *)

(** [a + b] and [a <= b] on numbers. *)
Definition number_add (x y : number) : number := SFadd prec emax x y.
Definition number_leb (x y : number) : bool := SFleb x y.

(** [e.message]: the text given to [new Error]; the host's own errors carry
    the host's text, for which their name stands here. *)
Definition message (e : exn) : jsstring :=
  match e with
  | JsError msg => msg
  | RangeError => js "RangeError"
  | DataError => js "DataError"
  end.

Module App.

Inductive CollectionMethod : Type := ORDINAL | STOCHASTIC_FLUX.

Record SequestrationBlock : Type := {
  id : jsstring;
  hash : jsstring;
  carbonSaved : number;
  method : CollectionMethod;
  timestamp : number }.

(** The [timestamp] of a transaction is [tx_timestamp] here, the name being
    taken by the blocks. *)
Record SequestrationTransaction : Type := {
  txid : jsstring;
  raw : jsstring;
  signature : jsstring;
  isSigned : bool;
  amount : number;
  tx_timestamp : number }.

Record VaultState : Type := {
  address : jsstring;
  wif : jsstring;
  totalBalance : number;
  lastConsolidation : number;
  isRecovering : bool;
  isWifValid : bool }.

(** The cells that the vault handlers read or write. *)
Record State : Type := {
  mempool : list SequestrationBlock;
  activeTx : option SequestrationTransaction;
  txHistory : list SequestrationTransaction;
  isRecoveryOpen : bool;
  isConfirmingBroadcast : bool;
  recoveryWif : jsstring;
  recoveryError : option jsstring;
  isBroadcasting : bool;
  vault : VaultState;
  insight : jsstring;
  isAutoCollect : bool }.

Definition setMempool (v : list SequestrationBlock) (s : State) : State :=
  {| mempool := v; activeTx := activeTx s; txHistory := txHistory s;
     isRecoveryOpen := isRecoveryOpen s;
     isConfirmingBroadcast := isConfirmingBroadcast s;
     recoveryWif := recoveryWif s; recoveryError := recoveryError s;
     isBroadcasting := isBroadcasting s; vault := vault s; insight := insight s;
     isAutoCollect := isAutoCollect s |}.

Definition setActiveTx (v : option SequestrationTransaction) (s : State) : State :=
  {| mempool := mempool s; activeTx := v; txHistory := txHistory s;
     isRecoveryOpen := isRecoveryOpen s;
     isConfirmingBroadcast := isConfirmingBroadcast s;
     recoveryWif := recoveryWif s; recoveryError := recoveryError s;
     isBroadcasting := isBroadcasting s; vault := vault s; insight := insight s;
     isAutoCollect := isAutoCollect s |}.

Definition setTxHistory
    (f : list SequestrationTransaction -> list SequestrationTransaction)
    (s : State) : State :=
  {| mempool := mempool s; activeTx := activeTx s; txHistory := f (txHistory s);
     isRecoveryOpen := isRecoveryOpen s;
     isConfirmingBroadcast := isConfirmingBroadcast s;
     recoveryWif := recoveryWif s; recoveryError := recoveryError s;
     isBroadcasting := isBroadcasting s; vault := vault s; insight := insight s;
     isAutoCollect := isAutoCollect s |}.

Definition setIsRecoveryOpen (v : bool) (s : State) : State :=
  {| mempool := mempool s; activeTx := activeTx s; txHistory := txHistory s;
     isRecoveryOpen := v;
     isConfirmingBroadcast := isConfirmingBroadcast s;
     recoveryWif := recoveryWif s; recoveryError := recoveryError s;
     isBroadcasting := isBroadcasting s; vault := vault s; insight := insight s;
     isAutoCollect := isAutoCollect s |}.

Definition setIsConfirmingBroadcast (v : bool) (s : State) : State :=
  {| mempool := mempool s; activeTx := activeTx s; txHistory := txHistory s;
     isRecoveryOpen := isRecoveryOpen s;
     isConfirmingBroadcast := v;
     recoveryWif := recoveryWif s; recoveryError := recoveryError s;
     isBroadcasting := isBroadcasting s; vault := vault s; insight := insight s;
     isAutoCollect := isAutoCollect s |}.

Definition setRecoveryWif (v : jsstring) (s : State) : State :=
  {| mempool := mempool s; activeTx := activeTx s; txHistory := txHistory s;
     isRecoveryOpen := isRecoveryOpen s;
     isConfirmingBroadcast := isConfirmingBroadcast s;
     recoveryWif := v; recoveryError := recoveryError s;
     isBroadcasting := isBroadcasting s; vault := vault s; insight := insight s;
     isAutoCollect := isAutoCollect s |}.

Definition setRecoveryError (v : option jsstring) (s : State) : State :=
  {| mempool := mempool s; activeTx := activeTx s; txHistory := txHistory s;
     isRecoveryOpen := isRecoveryOpen s;
     isConfirmingBroadcast := isConfirmingBroadcast s;
     recoveryWif := recoveryWif s; recoveryError := v;
     isBroadcasting := isBroadcasting s; vault := vault s; insight := insight s;
     isAutoCollect := isAutoCollect s |}.

Definition setIsBroadcasting (v : bool) (s : State) : State :=
  {| mempool := mempool s; activeTx := activeTx s; txHistory := txHistory s;
     isRecoveryOpen := isRecoveryOpen s;
     isConfirmingBroadcast := isConfirmingBroadcast s;
     recoveryWif := recoveryWif s; recoveryError := recoveryError s;
     isBroadcasting := v; vault := vault s; insight := insight s;
     isAutoCollect := isAutoCollect s |}.

Definition setVault (f : VaultState -> VaultState) (s : State) : State :=
  {| mempool := mempool s; activeTx := activeTx s; txHistory := txHistory s;
     isRecoveryOpen := isRecoveryOpen s;
     isConfirmingBroadcast := isConfirmingBroadcast s;
     recoveryWif := recoveryWif s; recoveryError := recoveryError s;
     isBroadcasting := isBroadcasting s; vault := f (vault s); insight := insight s;
     isAutoCollect := isAutoCollect s |}.

Definition setInsight (v : jsstring) (s : State) : State :=
  {| mempool := mempool s; activeTx := activeTx s; txHistory := txHistory s;
     isRecoveryOpen := isRecoveryOpen s;
     isConfirmingBroadcast := isConfirmingBroadcast s;
     recoveryWif := recoveryWif s; recoveryError := recoveryError s;
     isBroadcasting := isBroadcasting s; vault := vault s; insight := v;
     isAutoCollect := isAutoCollect s |}.

(** [{ ...prev, address: addr, wif, isWifValid: true }] *)
Definition with_key (addr key : jsstring) (prev : VaultState) : VaultState :=
  {| address := addr; wif := key; totalBalance := totalBalance prev;
     lastConsolidation := lastConsolidation prev;
     isRecovering := isRecovering prev; isWifValid := true |}.

(** [{ ...prev, isRecovering: v }] *)
Definition with_isRecovering (v : bool) (prev : VaultState) : VaultState :=
  {| address := address prev; wif := wif prev; totalBalance := totalBalance prev;
     lastConsolidation := lastConsolidation prev;
     isRecovering := v; isWifValid := isWifValid prev |}.

(** [{ ...prev, totalBalance: prev.totalBalance + amount, lastConsolidation: t }] *)
Definition with_settlement (amt t : number) (prev : VaultState) : VaultState :=
  {| address := address prev; wif := wif prev;
     totalBalance := number_add (totalBalance prev) amt;
     lastConsolidation := t;
     isRecovering := isRecovering prev; isWifValid := isWifValid prev |}.

(** The cells as [useState] creates them, the clock showing [now]. *)
Definition initial (now : Z) : State :=
  {| mempool := []; activeTx := None; txHistory := [];
     isRecoveryOpen := false; isConfirmingBroadcast := false;
     recoveryWif := []; recoveryError := None; isBroadcasting := false;
     vault := {| address := js "GENERATING..."; wif := js "DERIVING...";
                 totalBalance := number_of_Z 0;
                 lastConsolidation := number_of_Z now;
                 isRecovering := false; isWifValid := false |};
     insight := js "Veritas Engine 4.3 online. BTC Truth Protocol Active. Calibration: "
                ++ [936%N] ++ js " = 958.312108.";
     isAutoCollect := false |}.

(** [setTimeout(() => update, delay)] *)
Record Timer : Type := { delay : Z; fire : State -> State }.

(** [initVault]; [random] is what [Math.random()] returns. *)
Definition initVault (random : number) (now : Z) (s : State) : Comp State :=
  t <- Date_now now ;;
  let seed := NumberToString.toString random ++ NumberToString.toString t in
  key <- deriveWIF seed ;;
  addr <- deriveAddressFromWIF key ;;
  ret (setVault (with_key addr key) s).

Definition handleRecover (s : State) : Comp State :=
  let s1 := setRecoveryError None s in
  try_catch
    (isValid <- validateWIF (recoveryWif s) ;;
     if negb isValid
     then ret (setRecoveryError (Some (js "IDENTITY_FAIL: Corrupt checksum.")) s1)
     else
       addr <- deriveAddressFromWIF (recoveryWif s) ;;
       let s2 := setVault (with_key addr (recoveryWif s)) s1 in
       let s3 := setIsRecoveryOpen false s2 in
       ret (setRecoveryWif [] s3))
    (fun e => ret (setRecoveryError (Some (js "EXCEPTION: " ++ message e)) s1)).

(** [mempool.reduce((acc, curr) => acc + curr.carbonSaved, 0)] *)
Definition pending (s : State) : number :=
  fold_left (fun acc curr => number_add acc (carbonSaved curr)) (mempool s)
            (number_of_Z 0).

(** [prepareSequestrationTx]; the clock shows [now] when the payload is
    signed and [stamp] when the transaction is recorded. *)
Definition prepareSequestrationTx (now stamp : Z) (s : State)
  : Comp (State * list Timer) :=
  if number_leb (pending s) (number_of_Z 0) then ret (s, [])
  else
    let s1 := setVault (with_isRecovering true) s in
    let s2 := setInsight
                (js "STAGING TRANSACTION: Calculating script hash and gathering UTXO dust...")
                s1 in
    s3 <- try_catch
            ('(Build_SignedTx signed_txid signed_raw signed_signature) <-
               signSequestrationTx (wif (vault s)) (pending s) (address (vault s)) now ;;
             t <- Date_now stamp ;;
             let newTx := {| txid := signed_txid; raw := signed_raw;
                             signature := signed_signature; isSigned := true;
                             amount := pending s; tx_timestamp := t |} in
             let s3 := setActiveTx (Some newTx) s2 in
             let s4 := setInsight
                         (js "TX_STAGED: " ++ substring0 signed_txid 12 ++
                          js "... Waiting for explicit broadcast confirmation. FUCKAAAAA KAKAKAK.")
                         s3 in
             ret (if negb (isAutoCollect s) then setIsConfirmingBroadcast true s4 else s4))
            (fun e => ret (setInsight (js "SIGNING_ERROR: " ++ message e) s2)) ;;
    ret (s3, [{| delay := 500; fire := setVault (with_isRecovering false) |}]).

(** [broadcastTransaction], the two seconds of waiting left out. *)
Definition broadcastTransaction (now : Z) (s : State) : Comp State :=
  match activeTx s with
  | None => ret s
  | Some tx =>
      let s1 := setIsConfirmingBroadcast false s in
      let s2 := setIsBroadcasting true s1 in
      let s3 := setInsight
                  (js "BROADCASTING: Transmitting signed hex payload to global Ecoflux mainnet nodes...")
                  s2 in
      let s4 := setTxHistory (fun prev => slice (tx :: prev) 0 20) s3 in
      t <- Date_now now ;;
      let s5 := setVault (with_settlement (amount tx) t) s4 in
      let s6 := setMempool [] s5 in
      let s7 := setActiveTx None s6 in
      let s8 := setIsBroadcasting false s7 in
      ret (setInsight
             (js "TX_SETTLED: " ++ substring0 (txid tx) 12 ++
              js "... Verify on mempool.space. Truth verified.")
             s8)
  end.

(** The auto-collect effect: it stages a transaction only when the guard
    holds. *)
Definition autoCollect (now stamp : Z) (s : State) : Comp (State * list Timer) :=
  if isAutoCollect s && (5 <=? length (mempool s))%nat
     && (match activeTx s with None => true | Some _ => false end)
     && negb (isRecovering (vault s)) && negb (isBroadcasting s)
     && isWifValid (vault s)
  then prepareSequestrationTx now stamp s
  else ret (s, []).

(** The vault flag tells the truth: when [isWifValid] is set, the key is
    one [validateWIF] accepts and the address is its identity. *)
Definition vault_ok (v : VaultState) : Prop :=
  isWifValid v = true ->
  outcome (validateWIF (wif v)) = inr true /\
  outcome (deriveAddressFromWIF (wif v)) = inr (address v).

End App.

(** The timer that [prepareSequestrationTx] starts in its [finally]. *)
Definition recovery_timer : App.Timer :=
  {| App.delay := 500; App.fire := App.setVault (App.with_isRecovering false) |}.

(** The transaction that [prepareSequestrationTx] records for a signing. *)
Definition staged_tx (tx : SignedTx) (amt : number) (stamp : Z)
  : App.SequestrationTransaction :=
  {| App.txid := txid tx; App.raw := raw tx; App.signature := signature tx;
     App.isSigned := true; App.amount := amt; App.tx_timestamp := number_of_Z stamp |}.

(** A vault holding the key of the all-zero secret, five blocks waiting and
    auto-collect switched on. *)
Definition sample_block : App.SequestrationBlock :=
  {| App.id := js "K3X9Q"; App.hash := js "0123456789abcdef";
     App.carbonSaved := amount_1_5; App.method := App.STOCHASTIC_FLUX;
     App.timestamp := number_of_Z sample_time |}.

Definition ready_state : App.State :=
  App.setMempool (repeat sample_block 5)
    (App.setVault (App.with_key zero_identity zero_key)
       {| App.mempool := []; App.activeTx := None; App.txHistory := [];
          App.isRecoveryOpen := false; App.isConfirmingBroadcast := false;
          App.recoveryWif := []; App.recoveryError := None;
          App.isBroadcasting := false; App.vault := App.vault (App.initial sample_time);
          App.insight := App.insight (App.initial sample_time);
          App.isAutoCollect := true |}).

(* ------------------------------------------------------------------ *)
(** ** Computations *)

Lemma bind_ret_l {A B} (a : A) (f : A -> Comp B) : bind (ret a) f = f a.
Proof. unfold bind, ret. now destruct (f a). Qed.

Lemma bind_pure {A B} (a : A) (f : A -> Comp B) : bind ([], inr a) f = f a.
Proof. apply bind_ret_l. Qed.

Lemma bind_step {A B} (t : list event) (a : A) (f : A -> Comp B) :
  bind (t, inr a) f = (t ++ trace (f a), outcome (f a)).
Proof. unfold bind, trace, outcome. now destruct (f a). Qed.

Lemma bind_throw {A B} (t : list event) (e : exn) (f : A -> Comp B) :
  bind (t, inl e) f = (t, inl e).
Proof. reflexivity. Qed.

(* ------------------------------------------------------------------ *)
(** ** Bytes *)

Lemma byte_to_Z_range (b : byte) : 0 <= byte_to_Z b < 256.
Proof.
  unfold byte_to_Z. pose proof (Byte.to_N_bounded b). lia.
Qed.

Lemma byte_of_to_Z (b : byte) : byte_of_Z (byte_to_Z b) = b.
Proof.
  unfold byte_of_Z. rewrite Z.mod_small by apply byte_to_Z_range.
  unfold byte_to_Z. now rewrite N2Z.id, Byte.of_to_N.
Qed.

Lemma byte_eqb_x00 (b : byte) : Byte.eqb b x00 = (byte_to_Z b =? 0).
Proof. destruct b; reflexivity. Qed.

Lemma byte_eqb_refl (b : byte) : Byte.eqb b b = true.
Proof. now apply Byte.byte_dec_lb. Qed.

Lemma byte_nonzero (b : byte) : b <> x00 -> 0 < byte_to_Z b.
Proof.
  intros Hb. pose proof (byte_to_Z_range b).
  destruct (Z.eq_dec (byte_to_Z b) 0) as [E|]; [|lia].
  exfalso. apply Hb. now rewrite <- (byte_of_to_Z b), E.
Qed.

(* ------------------------------------------------------------------ *)
(** ** Base58: the round trip *)

Lemma loop_fuel_enough (x : Z) : x < 2 ^ Z.of_nat (loop_fuel x).
Proof.
  unfold loop_fuel. destruct (Z_lt_le_dec 0 x) as [Hpos|Hle].
  - rewrite Nat2Z.inj_succ, Z2Nat.id by apply Z.log2_nonneg.
    apply Z.log2_spec. exact Hpos.
  - assert (0 < 2 ^ Z.of_nat (S (Z.to_nat (Z.log2 x)))) by (apply Z.pow_pos_nonneg; lia).
    lia.
Qed.

Lemma pow2_succ (n : nat) : 2 ^ Z.of_nat (S n) = 2 * 2 ^ Z.of_nat n.
Proof. rewrite Nat2Z.inj_succ, Z.pow_succ_r; lia. Qed.

(** The iteration bound of the division loops is never what stops them:
    with the bound of [loop_fuel] or any larger one the loop ends on
    [x = 0], so the result does not depend on the bound. *)
Ltac fuel_induction fuel IH :=
  induction fuel as [|fuel IH]; intros x acc extra Hx;
  [ assert (x = 0) by (simpl in Hx; lia); subst x; destruct extra; reflexivity
  | rewrite pow2_succ in Hx; simpl;
    destruct (Z.ltb_spec 0 x) as [Hpos|Hzero]; [|reflexivity];
    rewrite Z.quot_div_nonneg by lia;
    apply IH; split; [apply Z.div_pos; lia | apply Z.div_lt_upper_bound; lia] ].

Lemma encode_digits_fuel (fuel : nat) :
  forall x acc extra, 0 <= x < 2 ^ Z.of_nat fuel ->
  encode_digits (fuel + extra) x acc = encode_digits fuel x acc.
Proof. fuel_induction fuel IH. Qed.

Lemma decode_bytes_fuel (fuel : nat) :
  forall x acc extra, 0 <= x < 2 ^ Z.of_nat fuel ->
  decode_bytes (fuel + extra) x acc = decode_bytes fuel x acc.
Proof. fuel_induction fuel IH. Qed.

Lemma hex_digits_fuel (fuel : nat) :
  forall x acc extra, 0 <= x < 2 ^ Z.of_nat fuel ->
  hex_digits (fuel + extra) x acc = hex_digits fuel x acc.
Proof. fuel_induction fuel IH. Qed.

Lemma digits_ok : forallb digit_ok (map Z.of_nat (seq 0 58)) = true.
Proof. vm_compute. reflexivity. Qed.

Lemma digit_char (d : Z) :
  0 <= d < 58 ->
  char_at_concat ALPHABET d = [b58_char d] /\
  indexOf ALPHABET (b58_char d) = d /\
  (b58_char d = 49%N -> d = 0).
Proof.
  intros Hd.
  assert (Hin : In d (map Z.of_nat (seq 0 58))).
  { apply in_map_iff. exists (Z.to_nat d). split; [lia|]. apply in_seq. lia. }
  pose proof (proj1 (forallb_forall _ _) digits_ok d Hin) as Hok.
  unfold digit_ok in Hok.
  destruct (char_at_concat ALPHABET d) as [|c [|? ?]]; try discriminate.
  apply andb_true_iff in Hok. destruct Hok as [Hok H3].
  apply andb_true_iff in Hok. destruct Hok as [H1 H2].
  apply N.eqb_eq in H1. subst c. apply Z.eqb_eq in H2.
  repeat split; trivial.
  intros E. rewrite E in H3. simpl in H3. now apply Z.eqb_eq.
Qed.

Lemma b58_value_app (ds1 ds2 : list Z) (acc : Z) :
  b58_value (ds1 ++ ds2) acc = b58_value ds2 (b58_value ds1 acc).
Proof. apply fold_left_app. Qed.

Lemma encode_digits_spec (fuel : nat) :
  forall x result, 0 <= x < 2 ^ Z.of_nat fuel ->
  exists ds,
    encode_digits fuel x result = map b58_char ds ++ result /\
    Forall (fun d => 0 <= d < 58) ds /\
    b58_value ds 0 = x /\
    match ds with [] => x = 0 | d :: _ => d <> 0 end.
Proof.
  induction fuel as [|fuel IH]; intros x result Hx.
  - exists []. simpl in *. repeat split; try constructor; lia.
  - rewrite pow2_succ in Hx. simpl.
    destruct (Z.ltb_spec 0 x) as [Hpos|Hzero].
    + rewrite Z.quot_div_nonneg, Z.rem_mod_nonneg by lia.
      assert (Hq : 0 <= x / 58 < 2 ^ Z.of_nat fuel).
      { split; [apply Z.div_pos; lia|]. apply Z.div_lt_upper_bound; lia. }
      assert (Hr : 0 <= x mod 58 < 58) by (apply Z.mod_pos_bound; lia).
      destruct (IH (x / 58) (char_at_concat ALPHABET (x mod 58) ++ result) Hq)
        as (ds & Henc & Hall & Hval & Hhead).
      exists (ds ++ [x mod 58]). repeat split.
      * rewrite Henc. destruct (digit_char _ Hr) as (-> & _ & _).
        now rewrite map_app, <- app_assoc.
      * apply Forall_app. split; [exact Hall|]. now constructor.
      * rewrite b58_value_app, Hval. simpl.
        pose proof (Z.div_mod x 58). lia.
      * destruct ds as [|d ds']; simpl; [|exact Hhead].
        pose proof (Z.div_mod x 58). lia.
    + exists []. simpl. repeat split; try constructor; lia.
Qed.

Lemma decode_value_digits (ds : list Z) :
  forall rest acc, Forall (fun d => 0 <= d < 58) ds ->
  decode_value (map b58_char ds ++ rest) acc = decode_value rest (b58_value ds acc).
Proof.
  induction ds as [|d ds IH]; intros rest acc Hall; [reflexivity|].
  inversion Hall as [|? ? Hd Hds]; subst. simpl.
  destruct (digit_char d Hd) as (_ & -> & _).
  destruct (Z.eqb_spec d (-1)) as [E|_]; [lia|].
  now apply IH.
Qed.

Lemma repeat_shift {A} (a : A) (n : nat) (l : list A) :
  repeat a n ++ a :: l = a :: repeat a n ++ l.
Proof. induction n; simpl; [reflexivity|]. now rewrite IHn. Qed.

Lemma count_strip_zeros (b : bytes) :
  b = repeat x00 (count_zeros b) ++ strip_zeros b.
Proof.
  induction b as [|x rest IH]; [reflexivity|]. simpl.
  destruct (Byte.eqb x x00) eqn:E; [|reflexivity].
  apply Byte.byte_dec_bl in E. subst x. simpl. now rewrite <- IH.
Qed.

Lemma strip_zeros_head (b : bytes) : no_leading_zero (strip_zeros b).
Proof.
  induction b as [|x rest IH]; simpl; [exact I|].
  destruct (Byte.eqb x x00) eqn:E; [exact IH|].
  simpl. now apply Byte.eqb_false.
Qed.

Lemma encode_leading_zeros_spec (b : bytes) :
  forall result,
  encode_leading_zeros b result = repeat 49%N (count_zeros b) ++ result.
Proof.
  induction b as [|x rest IH]; intros result; [reflexivity|]. simpl.
  destruct (Byte.eqb x x00); [|reflexivity].
  rewrite IH. change (char_at_concat ALPHABET 0) with [49%N].
  simpl. apply repeat_shift.
Qed.

Lemma bigint_fold_nonneg (b : bytes) :
  forall a, 0 <= a -> a <= fold_left (fun x c => x * 256 + byte_to_Z c) b a.
Proof.
  induction b as [|c rest IH]; intros a Ha; simpl; [lia|].
  pose proof (byte_to_Z_range c).
  specialize (IH (a * 256 + byte_to_Z c)). lia.
Qed.

Lemma bytes_to_bigint_snoc (r : bytes) (c : byte) :
  bytes_to_bigint (r ++ [c]) = bytes_to_bigint r * 256 + byte_to_Z c.
Proof. unfold bytes_to_bigint. now rewrite fold_left_app. Qed.

Lemma bytes_to_bigint_nonneg (b : bytes) : 0 <= bytes_to_bigint b.
Proof. apply (bigint_fold_nonneg b 0). lia. Qed.

Lemma bytes_to_bigint_pos (h : byte) (t : bytes) :
  h <> x00 -> 0 < bytes_to_bigint (h :: t).
Proof.
  intros Hh. unfold bytes_to_bigint. simpl.
  pose proof (byte_nonzero h Hh).
  pose proof (bigint_fold_nonneg t (byte_to_Z h)). lia.
Qed.

Lemma bytes_to_bigint_strip (b : bytes) :
  bytes_to_bigint (strip_zeros b) = bytes_to_bigint b.
Proof.
  induction b as [|x rest IH]; [reflexivity|]. simpl.
  destruct (Byte.eqb x x00) eqn:E; [|reflexivity].
  apply Byte.byte_dec_bl in E. subst x. exact IH.
Qed.

Lemma decode_bytes_zero (fuel : nat) (acc : list Z) : decode_bytes fuel 0 acc = acc.
Proof. destruct fuel; reflexivity. Qed.

Lemma decode_bytes_spec (r : bytes) :
  forall fuel acc,
  no_leading_zero r ->
  bytes_to_bigint r < 2 ^ Z.of_nat fuel ->
  decode_bytes fuel (bytes_to_bigint r) acc = map byte_to_Z r ++ acc.
Proof.
  induction r as [|c r IH] using rev_ind; intros fuel acc Hhead Hfuel.
  - apply decode_bytes_zero.
  - rewrite bytes_to_bigint_snoc in *.
    pose proof (byte_to_Z_range c) as Hc.
    pose proof (bytes_to_bigint_nonneg r) as Hv.
    assert (Hpos : 0 < bytes_to_bigint r * 256 + byte_to_Z c).
    { destruct r as [|h t]; simpl in Hhead.
      - pose proof (byte_nonzero c Hhead). unfold bytes_to_bigint. simpl. lia.
      - pose proof (bytes_to_bigint_pos h t Hhead). lia. }
    destruct fuel as [|fuel]; [simpl in Hfuel; lia|].
    rewrite pow2_succ in Hfuel. simpl.
    destruct (Z.ltb_spec 0 (bytes_to_bigint r * 256 + byte_to_Z c)) as [_|]; [|lia].
    rewrite Z.quot_div_nonneg, Z.rem_mod_nonneg by lia.
    replace ((bytes_to_bigint r * 256 + byte_to_Z c) / 256) with (bytes_to_bigint r)
      by (apply Z.div_unique with (r := byte_to_Z c); lia).
    replace ((bytes_to_bigint r * 256 + byte_to_Z c) mod 256) with (byte_to_Z c)
      by (apply Z.mod_unique with (q := bytes_to_bigint r); lia).
    rewrite IH.
    + now rewrite map_app, <- app_assoc.
    + destruct r; simpl in *; trivial.
    + lia.
Qed.

Lemma decode_leading_zeros_spec (k : nat) (digits : jsstring) :
  forall acc,
  match digits with [] => True | c :: _ => c <> 49%N end ->
  decode_leading_zeros (repeat 49%N k ++ digits) acc = repeat 0 k ++ acc.
Proof.
  induction k as [|k IH]; intros acc Hhead; simpl.
  - destruct digits as [|c rest]; [reflexivity|]. simpl.
    unfold jsstring_eqb. change (char_at_concat ALPHABET 0) with [49%N].
    destruct (list_eq_dec N.eq_dec [c] [49%N]) as [E|_]; [|reflexivity].
    congruence.
  - unfold jsstring_eqb. change (char_at_concat ALPHABET 0) with [49%N].
    destruct (list_eq_dec N.eq_dec [49%N] [49%N]) as [_|E]; [|congruence].
    rewrite IH by exact Hhead. apply repeat_shift.
Qed.

Lemma b58_value_zeros (k : nat) : b58_value (repeat 0 k) 0 = 0.
Proof. induction k; simpl; trivial. Qed.

Lemma map_byte_of_to_Z (r : bytes) : map byte_of_Z (map byte_to_Z r) = r.
Proof.
  induction r as [|c r IH]; simpl; [reflexivity|].
  now rewrite byte_of_to_Z, IH.
Qed.

(** Decoding the encoding of a byte sequence gives it back, without any
    host call. *)
Lemma decode_encode (b : bytes) : decodeBase58 (encodeBase58 b) = ([], inr b).
Proof.
  unfold decodeBase58, encodeBase58.
  set (x := bytes_to_bigint b).
  assert (Hx : 0 <= x < 2 ^ Z.of_nat (loop_fuel x)).
  { split; [apply bytes_to_bigint_nonneg | apply loop_fuel_enough]. }
  destruct (encode_digits_spec (loop_fuel x) x [] Hx) as (ds & Henc & Hall & Hval & Hhead).
  rewrite Henc, encode_leading_zeros_spec, app_nil_r.
  set (k := count_zeros b).
  assert (Hones : repeat 49%N k = map b58_char (repeat 0 k)).
  { clear. induction k; simpl; [reflexivity|]. now f_equal. }
  assert (Hdec : decode_value (repeat 49%N k ++ map b58_char ds) 0 = ret x).
  { rewrite Hones, <- map_app, <- (app_nil_r (map _ _)), decode_value_digits.
    - simpl. now rewrite b58_value_app, b58_value_zeros, Hval.
    - apply Forall_app. split; [|exact Hall].
      clear. induction k; simpl; constructor; trivial; lia. }
  rewrite Hdec, bind_ret_l. unfold ret. cbv zeta. f_equal. f_equal.
  rewrite decode_leading_zeros_spec.
  - unfold x at 2. rewrite <- bytes_to_bigint_strip.
    rewrite decode_bytes_spec.
    + rewrite app_nil_r, map_app, map_byte_of_to_Z.
      rewrite (count_strip_zeros b) at 2. f_equal. subst k.
      clear. induction (count_zeros b); simpl; [reflexivity|]. now f_equal.
    + apply strip_zeros_head.
    + rewrite bytes_to_bigint_strip. apply Hx.
  - destruct ds as [|d ds']; simpl; [exact I|].
    inversion Hall as [|? ? Hd _]; subst.
    intros E. apply Hhead. now apply (digit_char d Hd).
Qed.

(* ------------------------------------------------------------------ *)
(** ** The hash primitives: sizes *)

Lemma be_bytes_length (n : nat) : forall x, length (SHA256.be_bytes n x) = n.
Proof.
  induction n as [|n IH]; intros x; simpl; [reflexivity|].
  rewrite length_app, IH. simpl. lia.
Qed.

Lemma hash_length (msg : bytes) : length (SHA256.hash msg) = 32%nat.
Proof.
  unfold SHA256.hash, SHA256.digest_bytes.
  destruct (SHA256.blocks _ _ _) as [[[[[[[h0 h1] h2] h3] h4] h5] h6] h7].
  rewrite !length_app, !be_bytes_length. reflexivity.
Qed.

Lemma blocks_fuel (fuel : nat) :
  forall bs hs extra, (length bs <= 64 * fuel)%nat ->
  SHA256.blocks (fuel + extra) bs hs = SHA256.blocks fuel bs hs.
Proof.
  induction fuel as [|fuel IH]; intros bs hs extra Hlen.
  - destruct bs; [|simpl in Hlen; lia]. destruct extra; reflexivity.
  - cbn [SHA256.blocks Nat.add]. destruct bs as [|b bs]; [reflexivity|].
    apply IH. rewrite length_skipn. lia.
Qed.

Lemma hmac_length (key data : bytes) : length (SHA256.hmac key data) = 32%nat.
Proof. apply hash_length. Qed.

Lemma double_digest_length (data : bytes) : length (double_digest data) = 32%nat.
Proof. apply hash_length. Qed.

#[local] Arguments SHA256.hash : simpl never.
#[local] Arguments SHA256.hmac : simpl never.
#[local] Arguments encodeBase58 : simpl never.
#[local] Arguments decodeBase58 : simpl never.
#[local] Arguments NumberToString.toString : simpl never.
#[local] Arguments amountSats : simpl never.
#[local] Arguments byte_hex : simpl never.
#[local] Arguments utf8_encode : simpl never.
#[local] Arguments checksum_loop : simpl never.
#[local] Arguments slice : simpl never.
#[local] Arguments slice_from : simpl never.

(** Splitting a list of known length into its elements. *)
Ltac explode H l :=
  repeat (destruct l as [|? l]; simpl in H; [try discriminate H | try discriminate H]).

Lemma hash_shape (msg : bytes) :
  exists a b c d rest, SHA256.hash msg = a :: b :: c :: d :: rest /\ length rest = 28%nat.
Proof.
  pose proof (hash_length msg) as H.
  destruct (SHA256.hash msg) as [|a [|b [|c [|d rest]]]]; try discriminate H.
  exists a, b, c, d, rest. split; [reflexivity|]. simpl in H. lia.
Qed.

Lemma doubleSha256_run (data : bytes) :
  doubleSha256 data =
  ([EvDigest data; EvDigest (SHA256.hash data)], inr (double_digest data)).
Proof. reflexivity. Qed.

(* ------------------------------------------------------------------ *)
(** ** Key validation *)

Lemma decode_value_pure (str : jsstring) : forall x, trace (decode_value str x) = [].
Proof.
  induction str as [|c rest IH]; intros x; simpl; [reflexivity|].
  destruct (indexOf ALPHABET c =? -1); [reflexivity | apply IH].
Qed.

Lemma decodeBase58_pure (str : jsstring) : trace (decodeBase58 str) = [].
Proof.
  unfold decodeBase58. pose proof (decode_value_pure str 0) as H.
  destruct (decode_value str 0) as [t [e|x]]; simpl in *; subst; reflexivity.
Qed.

Lemma decodeBase58_cases (str : jsstring) :
  (exists e, decodeBase58 str = ([], inl e)) \/
  (exists d, decodeBase58 str = ([], inr d)).
Proof.
  pose proof (decodeBase58_pure str) as H.
  destruct (decodeBase58 str) as [t [e|d]]; simpl in H; subst; eauto.
Qed.

Lemma checksum_loop_eq (a b : bytes) :
  length a = 4%nat -> length b = 4%nat ->
  (checksum_loop a b = true <-> a = b).
Proof.
  intros Ha Hb. explode Ha a. explode Hb b.
  unfold checksum_loop. simpl. split.
  - intros H. repeat (apply andb_true_iff in H; destruct H as [? H]).
    repeat match goal with E : Byte.eqb _ _ = true |- _ =>
      apply Byte.byte_dec_bl in E end.
    congruence.
  - intros H. injection H as -> -> -> ->.
    now rewrite !byte_eqb_refl.
Qed.

Lemma obyte_eqb_eq (a b : option byte) : obyte_eqb a b = true <-> a = b.
Proof.
  destruct a as [x|], b as [y|]; simpl; split; intros H;
    try discriminate; try reflexivity.
  - f_equal. now apply Byte.byte_dec_bl.
  - injection H as ->. apply byte_eqb_refl.
Qed.

Lemma structure_ok_iff (d : bytes) :
  structure_ok d = true <->
  length d = 38%nat /\ nth_error d 0 = Some x80 /\ nth_error d 33 = Some x01.
Proof.
  unfold structure_ok. rewrite !andb_true_iff, Nat.eqb_eq, !obyte_eqb_eq. tauto.
Qed.

(** What [validateWIF] does, by cases on the decoding. *)
Lemma validateWIF_run (wif : jsstring) :
  validateWIF wif =
  match outcome (decodeBase58 wif) with
  | inl _ => ([], inr false)
  | inr d =>
      if structure_ok d
      then (checksum_trace (slice d 0 34),
            inr (checksum_loop (slice_from d 34)
                               (slice (double_digest (slice d 0 34)) 0 4)))
      else ([], inr false)
  end.
Proof.
  unfold validateWIF, structure_ok.
  destruct (decodeBase58_cases wif) as [[e E]|[d E]]; rewrite E; [reflexivity|].
  rewrite bind_pure. unfold outcome, snd.
  destruct (length d =? 38)%nat; [|reflexivity].
  destruct (obyte_eqb (nth_error d 0) (Some x80)); [|reflexivity].
  destruct (obyte_eqb (nth_error d 33) (Some x01)); reflexivity.
Qed.

Lemma validateWIF_returns (wif : jsstring) :
  exists b, outcome (validateWIF wif) = inr b.
Proof.
  rewrite validateWIF_run.
  destruct (outcome (decodeBase58 wif)) as [e|d]; [now exists false|].
  destruct (structure_ok d); eexists; reflexivity.
Qed.

Lemma slice_from_length (d : bytes) :
  length d = 38%nat -> length (slice_from d 34) = 4%nat.
Proof. intros H. unfold slice_from. rewrite length_skipn. lia. Qed.

Lemma checksum_slice_length (data : bytes) :
  length (slice (double_digest data) 0 4) = 4%nat.
Proof.
  unfold slice. rewrite length_firstn, length_skipn, double_digest_length. reflexivity.
Qed.

Lemma validateWIF_false_iff (wif : jsstring) :
  outcome (validateWIF wif) = inr false <-> rejected wif.
Proof.
  rewrite validateWIF_run. unfold rejected.
  destruct (outcome (decodeBase58 wif)) as [e|d] eqn:E.
  - split; [intros _; left; eauto | reflexivity].
  - destruct (structure_ok d) eqn:S.
    + apply structure_ok_iff in S. destruct S as (Hlen & H0 & H33).
      pose proof (checksum_loop_eq (slice_from d 34)
                    (slice (double_digest (slice d 0 34)) 0 4)
                    (slice_from_length d Hlen) (checksum_slice_length _)) as Hc.
      simpl. split.
      * intros H. right. exists d. split; [reflexivity|].
        right; right; right. intros Heq. apply Hc in Heq. congruence.
      * intros [[e He]|(d' & Hd' & Hbad)]; [discriminate|].
        injection Hd' as <-.
        destruct Hbad as [?|[?|[?|Hsum]]]; try contradiction.
        destruct (checksum_loop _ _) eqn:L; [|reflexivity].
        exfalso. apply Hsum. now apply Hc.
    + split; [|reflexivity]. intros _. right. exists d. split; [reflexivity|].
      destruct (Nat.eq_dec (length d) 38) as [Hlen|]; [|now left].
      destruct (obyte_eqb (nth_error d 0) (Some x80)) eqn:H0.
      * destruct (obyte_eqb (nth_error d 33) (Some x01)) eqn:H33.
        -- exfalso. apply obyte_eqb_eq in H0, H33.
           assert (structure_ok d = true) by (apply structure_ok_iff; auto).
           congruence.
        -- right; right; left. intros Heq. apply obyte_eqb_eq in Heq. congruence.
      * right; left. intros Heq. apply obyte_eqb_eq in Heq. congruence.
Qed.

Lemma validateWIF_true_inv (wif : jsstring) :
  outcome (validateWIF wif) = inr true ->
  exists d,
    decodeBase58 wif = ([], inr d) /\
    length d = 38%nat /\ nth_error d 0 = Some x80 /\ nth_error d 33 = Some x01 /\
    slice_from d 34 = slice (double_digest (slice d 0 34)) 0 4 /\
    validateWIF wif = (checksum_trace (slice d 0 34), inr true).
Proof.
  intros H. pose proof H as H'. rewrite validateWIF_run in H'.
  destruct (decodeBase58_cases wif) as [[e E]|[d E]];
    rewrite E in H'; [discriminate|].
  simpl in H'. destruct (structure_ok d) eqn:S; [|discriminate].
  apply structure_ok_iff in S. destruct S as (Hlen & H0 & H33).
  injection H' as Hc. exists d. repeat split; trivial.
  - apply checksum_loop_eq in Hc; trivial.
    + now apply slice_from_length.
    + apply checksum_slice_length.
  - rewrite validateWIF_run, E. simpl.
    assert (S : structure_ok d = true) by (apply structure_ok_iff; auto).
    now rewrite S, Hc.
Qed.

Lemma validateWIF_false_trace (wif : jsstring) :
  outcome (validateWIF wif) = inr false ->
  trace (validateWIF wif) = [] \/
  exists d, outcome (decodeBase58 wif) = inr d /\ structure_ok d = true /\
            trace (validateWIF wif) = checksum_trace (slice d 0 34).
Proof.
  rewrite validateWIF_run.
  destruct (outcome (decodeBase58 wif)) as [e|d]; [now left|].
  destruct (structure_ok d) eqn:S; [|now left].
  intros _. right. exists d. auto.
Qed.

(* ------------------------------------------------------------------ *)
(** ** Running the wallet functions *)

Ltac hash_cases :=
  match goal with
  | |- context [SHA256.hash (SHA256.hash ?p)] =>
      let E := fresh "E" in
      destruct (hash_shape (SHA256.hash p)) as (? & ? & ? & ? & ? & E & _);
      rewrite !E
  end.

Lemma wif_of_privKey_run (privKey : bytes) :
  length privKey = 32%nat ->
  wif_of_privKey privKey =
  (checksum_trace (key_payload privKey), inr (encodeBase58 (key_blob privKey))).
Proof.
  intros H. explode H privKey.
  unfold wif_of_privKey, key_blob, key_payload, double_digest, checksum_trace, slice.
  cbn. hash_cases. reflexivity. 
Qed.

Lemma key_blob_validates (privKey : bytes) :
  length privKey = 32%nat ->
  validateWIF (encodeBase58 (key_blob privKey)) =
  (checksum_trace (key_payload privKey), inr true).
Proof.
  intros H. rewrite validateWIF_run, decode_encode.
  explode H privKey.
  unfold key_blob, key_payload, double_digest, checksum_trace, slice, slice_from, structure_ok.
  cbn. hash_cases. cbn.
  unfold checksum_loop. cbn.
  rewrite !byte_eqb_refl. reflexivity.
Qed.

Lemma hash_shape20 (msg : bytes) :
  exists h t, SHA256.hash msg = h ++ t /\ length h = 20%nat /\ length t = 12%nat.
Proof.
  exists (firstn 20 (SHA256.hash msg)), (skipn 20 (SHA256.hash msg)).
  rewrite firstn_skipn, length_firstn, length_skipn, hash_length. auto.
Qed.

Lemma deriveAddressFromPrivKey_run (privKey : bytes) :
  deriveAddressFromPrivKey privKey =
  ([EvDigest privKey; EvDigest (SHA256.hash privKey)]
     ++ checksum_trace (identity_payload privKey),
   inr (encodeBase58 (identity_blob privKey))).
Proof.
  unfold deriveAddressFromPrivKey, identity_blob, identity_payload, double_digest, checksum_trace, slice.
  cbn.
  destruct (hash_shape20 (SHA256.hash privKey)) as (h & t & E & Hh & _).
  rewrite !E. explode Hh h. cbn. hash_cases. reflexivity.
Qed.

Lemma byte_hex_pair (b : byte) : byte_hex b = hex_pair b.
Proof. destruct b; reflexivity. Qed.

Lemma map_byte_hex (bs : bytes) : concat (map byte_hex bs) = hex_of_bytes bs.
Proof.
  unfold hex_of_bytes. rewrite flat_map_concat_map. f_equal.
  apply map_ext. apply byte_hex_pair.
Qed.

Lemma fold_byte_hex (bs : bytes) :
  forall acc, fold_left (fun str b => str ++ byte_hex b) bs acc = acc ++ hex_of_bytes bs.
Proof.
  induction bs as [|b bs IH]; intros acc; simpl.
  - now rewrite app_nil_r.
  - rewrite IH, byte_hex_pair, <- app_assoc. reflexivity.
Qed.

Lemma deriveAddressFromWIF_invalid (wif : jsstring) :
  outcome (validateWIF wif) = inr false ->
  deriveAddressFromWIF wif = (trace (validateWIF wif), inl (JsError (js "Invalid WIF"))).
Proof.
  intros H. unfold deriveAddressFromWIF.
  destruct (validateWIF wif) as [t [e|b]]; simpl in H; [discriminate|].
  injection H as ->. simpl. now rewrite app_nil_r.
Qed.

Lemma deriveAddressFromWIF_valid (wif : jsstring) (d : bytes) :
  decodeBase58 wif = ([], inr d) ->
  validateWIF wif = (checksum_trace (slice d 0 34), inr true) ->
  deriveAddressFromWIF wif =
  (checksum_trace (slice d 0 34) ++ trace (deriveAddressFromPrivKey (slice d 1 33)),
   inr (encodeBase58 (identity_blob (slice d 1 33)))).
Proof.
  intros Hd Hv. unfold deriveAddressFromWIF. rewrite Hv, bind_step.
  cbn [negb]. cbv iota. rewrite Hd, bind_pure.
  rewrite deriveAddressFromPrivKey_run. reflexivity.
Qed.

Lemma signSequestrationTx_invalid (wif : jsstring) amount destination now :
  outcome (validateWIF wif) = inr false ->
  signSequestrationTx wif amount destination now =
  (trace (validateWIF wif), inl (JsError (js "Invalid WIF key. Signing rejected."))).
Proof.
  intros H. unfold signSequestrationTx.
  destruct (validateWIF wif) as [t [e|b]]; simpl in H; [discriminate|].
  injection H as ->. simpl. now rewrite app_nil_r.
Qed.

Lemma signSequestrationTx_valid (wif : jsstring) (d : bytes) amount destination now :
  decodeBase58 wif = ([], inr d) ->
  length d = 38%nat ->
  validateWIF wif = (checksum_trace (slice d 0 34), inr true) ->
  signSequestrationTx wif amount destination now =
  (checksum_trace (slice d 0 34) ++ sign_trace (slice d 1 33) amount destination now,
   inr (signed_tx (slice d 1 33) amount destination now)).
Proof.
  intros Hd Hlen Hv. unfold signSequestrationTx. rewrite Hv, bind_step.
  cbn [negb]. cbv iota. rewrite Hd, bind_pure.
  assert (Hk : exists k0 ks, slice d 1 33 = k0 :: ks).
  { explode Hlen d. unfold slice. cbn. eauto. }
  destruct Hk as (k0 & ks & ->).
  unfold subtle_importKey, Date_now, subtle_sign.
  rewrite !bind_step. cbn [key_material trace outcome fst snd].
  rewrite doubleSha256_run, !bind_step.
  unfold ret. cbn [trace outcome fst snd].
  unfold signed_tx, sign_trace, raw_record, tx_data, substring0.
  rewrite fold_byte_hex, !map_byte_hex. cbn [raw app].
  reflexivity.
Qed.

Lemma hex_digit_ok (d : Z) :
  0 <= d < 16 ->
  is_lower_hex (hex_digit d) = true /\ hex_digit_value (hex_digit d) = d.
Proof.
  intros Hd.
  assert (E : d = 0 \/ d = 1 \/ d = 2 \/ d = 3 \/ d = 4 \/ d = 5 \/ d = 6 \/ d = 7 \/
              d = 8 \/ d = 9 \/ d = 10 \/ d = 11 \/ d = 12 \/ d = 13 \/ d = 14 \/ d = 15)
    by lia.
  repeat (destruct E as [->|E]; [split; reflexivity|]).
  subst d. split; reflexivity.
Qed.

Lemma hex_digits_spec (fuel : nat) :
  forall x acc, 0 <= x < 2 ^ Z.of_nat fuel ->
  exists ds,
    hex_digits fuel x acc = map hex_digit ds ++ acc /\
    Forall (fun d => 0 <= d < 16) ds /\
    fold_left (fun a d => a * 16 + d) ds 0 = x.
Proof.
  induction fuel as [|fuel IH]; intros x acc Hx.
  - exists []. simpl in *. repeat split; try constructor; lia.
  - rewrite pow2_succ in Hx. simpl.
    destruct (Z.ltb_spec 0 x) as [Hpos|Hzero].
    + rewrite Z.quot_div_nonneg, Z.rem_mod_nonneg by lia.
      assert (Hq : 0 <= x / 16 < 2 ^ Z.of_nat fuel).
      { split; [apply Z.div_pos; lia|]. apply Z.div_lt_upper_bound; lia. }
      assert (Hr : 0 <= x mod 16 < 16) by (apply Z.mod_pos_bound; lia).
      destruct (IH (x / 16) (hex_digit (x mod 16) :: acc) Hq) as (ds & Henc & Hall & Hval).
      exists (ds ++ [x mod 16]). repeat split.
      * rewrite Henc, map_app, <- app_assoc. reflexivity.
      * apply Forall_app. split; [exact Hall|]. now constructor.
      * rewrite fold_left_app, Hval. simpl. pose proof (Z.div_mod x 16). lia.
    + exists []. simpl. repeat split; try constructor; lia.
Qed.

Lemma hex_digits_length (fuel : nat) :
  forall x acc (n : nat), 0 <= x < 16 ^ Z.of_nat n ->
  (length (hex_digits fuel x acc) <= length acc + n)%nat.
Proof.
  induction fuel as [|fuel IH]; intros x acc n Hx; simpl; [lia|].
  destruct (Z.ltb_spec 0 x) as [Hpos|Hzero]; [|lia].
  destruct n as [|n]; [simpl in Hx; lia|].
  rewrite Nat2Z.inj_succ, Z.pow_succ_r in Hx by lia.
  rewrite Z.quot_div_nonneg by lia.
  assert (Hq : 0 <= x / 16 < 16 ^ Z.of_nat n).
  { split; [apply Z.div_pos; lia|]. apply Z.div_lt_upper_bound; lia. }
  specialize (IH (x / 16) (hex_digit (Z.rem x 16) :: acc) n Hq). simpl in IH. lia.
Qed.

Lemma hex_value_digits (ds : list Z) :
  Forall (fun d => 0 <= d < 16) ds ->
  forall a, fold_left (fun a c => a * 16 + hex_digit_value c) (map hex_digit ds) a
            = fold_left (fun a d => a * 16 + d) ds a.
Proof.
  induction 1 as [|d ds Hd _ IH]; intros a; simpl; [reflexivity|].
  rewrite (proj2 (hex_digit_ok d Hd)). apply IH.
Qed.

Lemma hex_chars_digits (ds : list Z) :
  Forall (fun d => 0 <= d < 16) ds ->
  forallb is_lower_hex (map hex_digit ds) = true.
Proof.
  induction 1 as [|d ds Hd _ IH]; simpl; [reflexivity|].
  now rewrite (proj1 (hex_digit_ok d Hd)).
Qed.

Lemma hex_value_zeros (n : nat) (s : jsstring) :
  hex_value (repeat 48%N n ++ s) = hex_value s.
Proof.
  unfold hex_value. rewrite fold_left_app. f_equal.
  induction n; simpl; trivial.
Qed.

Lemma hex_chars_zeros (n : nat) (s : jsstring) :
  forallb is_lower_hex (repeat 48%N n ++ s) = forallb is_lower_hex s.
Proof. rewrite forallb_app. induction n; simpl; trivial. Qed.

Lemma padStart0_length (s : jsstring) (n : nat) :
  length (padStart0 s n) = Nat.max n (length s).
Proof. unfold padStart0. rewrite length_app, repeat_length. lia. Qed.

Lemma hex_of_Z_spec (v : Z) :
  0 <= v ->
  forallb is_lower_hex (hex_of_Z v) = true /\ hex_value (hex_of_Z v) = v /\
  forall n : nat, (0 < n)%nat -> v < 16 ^ Z.of_nat n -> (length (hex_of_Z v) <= n)%nat.
Proof.
  intros Hv. unfold hex_of_Z.
  destruct (Z.leb_spec v 0) as [Hz|Hpos].
  - assert (v = 0) by lia. subst v. repeat split; try reflexivity.
    intros n Hn _. simpl. lia.
  - assert (Hx : 0 <= v < 2 ^ Z.of_nat (loop_fuel v))
      by (split; [lia | apply loop_fuel_enough]).
    destruct (hex_digits_spec (loop_fuel v) v [] Hx) as (ds & Henc & Hall & Hval).
    repeat split.
    + rewrite Henc, app_nil_r. now apply hex_chars_digits.
    + rewrite Henc, app_nil_r. unfold hex_value.
      now rewrite hex_value_digits.
    + intros n _ Hn. apply (hex_digits_length (loop_fuel v) v [] n). lia.
Qed.

Lemma amount_field_in_range (v : Z) :
  0 <= v < 2 ^ 64 ->
  length (padStart0 (toString16 (IntVal v)) 16) = 16%nat /\
  forallb is_lower_hex (padStart0 (toString16 (IntVal v)) 16) = true /\
  (v < 2 ^ 53 -> hex_value (padStart0 (toString16 (IntVal v)) 16) = v).
Proof.
  intros Hv. unfold toString16.
  destruct (Z.ltb_spec v 0) as [|_]; [lia|].
  destruct (hex_of_Z_spec v (proj1 Hv)) as (Hc & Hval & Hlen).
  specialize (Hlen 16%nat). 
  assert (Hl : (length (hex_of_Z v) <= 16)%nat).
  { apply Hlen; [lia|]. change (16 ^ Z.of_nat 16) with (2 ^ 64). lia. }
  repeat split.
  - rewrite padStart0_length. lia.
  - unfold padStart0. now rewrite hex_chars_zeros.
  - intros _. unfold padStart0. now rewrite hex_value_zeros.
Qed.

Lemma key_blob_length (secret : bytes) :
  length secret = 32%nat -> length (key_blob secret) = 38%nat.
Proof.
  intros H. unfold key_blob, key_payload.
  rewrite length_app, checksum_slice_length. simpl.
  rewrite length_app, H. reflexivity.
Qed.

Lemma key_blob_secret (secret : bytes) :
  length secret = 32%nat -> slice (key_blob secret) 1 33 = secret.
Proof.
  intros H. explode H secret. unfold key_blob, key_payload, slice. reflexivity.
Qed.

Lemma key_blob_payload (secret : bytes) :
  length secret = 32%nat -> slice (key_blob secret) 0 34 = key_payload secret.
Proof.
  intros H. explode H secret. unfold key_blob, key_payload, slice. reflexivity.
Qed.

Lemma identity_blob_length (secret : bytes) : length (identity_blob secret) = 25%nat.
Proof.
  unfold identity_blob, identity_payload.
  rewrite length_app, checksum_slice_length. simpl.
  unfold slice. rewrite length_firstn, length_skipn, hash_length. reflexivity.
Qed.

Lemma hex_of_bytes_length (bs : bytes) :
  length (hex_of_bytes bs) = (2 * length bs)%nat.
Proof.
  induction bs as [|b bs IH]; [reflexivity|].
  unfold hex_of_bytes in *. simpl. rewrite IH. lia.
Qed.

Lemma signed_tx_tag_length (secret : bytes) amount destination now :
  length (signature (signed_tx secret amount destination now)) = 64%nat.
Proof.
  unfold signed_tx. cbn [signature].
  now rewrite hex_of_bytes_length, hmac_length.
Qed.

(** A successful signing ran on a validated key and returned the
    transaction built from that key's secret. *)
Lemma signSequestrationTx_inr (wif : jsstring) amount destination now (tx : SignedTx) :
  outcome (signSequestrationTx wif amount destination now) = inr tx ->
  exists d,
    decodeBase58 wif = ([], inr d) /\
    outcome (validateWIF wif) = inr true /\
    tx = signed_tx (slice d 1 33) amount destination now.
Proof.
  intros H. destruct (validateWIF_returns wif) as [[|] Hb].
  - destruct (validateWIF_true_inv wif Hb) as (d & Hd & Hlen & _ & _ & _ & Hv).
    rewrite (signSequestrationTx_valid wif d amount destination now Hd Hlen Hv) in H.
    injection H as <-. exists d. auto.
  - rewrite (signSequestrationTx_invalid wif amount destination now Hb) in H.
    discriminate.
Qed.

(* ------------------------------------------------------------------ *)
(** ** Test vectors *)

Example sha256_constants :
  length SHA256.K = 64%nat /\
  hd 0 SHA256.K = 0x428a2f98 /\ last SHA256.K 0 = 0xc67178f2 /\
  fst (fst (fst (fst (fst (fst (fst SHA256.H0)))))) = 0x6a09e667 /\
  snd SHA256.H0 = 0x5be0cd19.
Proof. repeat split. Qed.

Example sha256_empty :
  hex_of_bytes (SHA256.hash []) =
  js "e3b0c44298fc1c149afbf4c8996fb92427ae41e4649b934ca495991b7852b855".
Proof. vm_compute. reflexivity. Qed.

Example sha256_abc :
  hex_of_bytes (SHA256.hash (list_byte_of_string "abc")) =
  js "ba7816bf8f01cfea414140de5dae2223b00361a396177a9cb410ff61f20015ad".
Proof. vm_compute. reflexivity. Qed.

Example hmac_sha256_fox :
  hex_of_bytes (SHA256.hmac (list_byte_of_string "key")
                  (list_byte_of_string "The quick brown fox jumps over the lazy dog")) =
  js "f7bc83f430538424b13298e6aa6fb143ef4d59a14946175997479dbc2d1a3cd8".
Proof. vm_compute. reflexivity. Qed.

Example utf8_encode_pairs :
  utf8_encode [0x41; 0xe9; 0x20ac; 0xd83d; 0xde00; 0xd800; 0x41]%N =
  map byte_of_Z [0x41; 0xc3; 0xa9; 0xe2; 0x82; 0xac; 0xf0; 0x9f; 0x98; 0x80;
                 0xef; 0xbf; 0xbd; 0x41].
Proof. vm_compute. reflexivity. Qed.

Example number_toString_samples :
  map NumberToString.toString
      [amount_1_5; amount_2e11; number_of_dyadic 1 (-1074); number_of_Z (10 ^ 21);
       number_of_dyadic 3602879701896397 (-55); S754_finite true 1 0] =
  map js ["1.5"; "200000000000"; "5e-324"; "1e+21"; "0.1"; "-1"]%string.
Proof. vm_compute. reflexivity. Qed.

Example zero_key_built :
  outcome (wif_of_privKey zero_secret) = inr zero_key.
Proof. vm_compute. reflexivity. Qed.

Example zero_key_altered_rejected :
  outcome (validateWIF (js "KwDiBf89QgGbjEhKnhXJuH7LrciVrZi3qYjgd9M7rFU73Nd2Mcv2"))
  = inr false.
Proof. vm_compute. reflexivity. Qed.

Example amount_field_1_5 : amountSats amount_1_5 = js "0000000008f0d180".
Proof. vm_compute. reflexivity. Qed.

(** [0.29 * 100000000] is [28999999.999999996]: the field holds the integer
    below it, and for [-0.29] the floor is [-29000000]. *)
Example amount_field_0_29 :
  amountSats (number_of_dyadic 5224175567749775 (-54)) = js "0000000001ba813f" /\
  Math_floor (number_mul (number_of_dyadic (-5224175567749775) (-54))
                         (number_of_Z 100000000)) = IntVal (-29000000).
Proof. split; vm_compute; reflexivity. Qed.

(* ------------------------------------------------------------------ *)
(** ** Seed, key and identity *)

Lemma bytes_eqb_false (a b : bytes) : bytes_eqb a b = false -> a <> b.
Proof.
  unfold bytes_eqb. destruct (list_eq_dec Byte.byte_eq_dec a b); congruence.
Qed.

Lemma deriveWIF_run (seed : jsstring) :
  outcome (deriveWIF seed) =
  inr (encodeBase58 (key_blob (SHA256.hash (utf8_encode (seed ++ WIF_TAG))))).
Proof.
  unfold deriveWIF, subtle_digest. rewrite bind_step.
  now rewrite wif_of_privKey_run by apply hash_length.
Qed.

Lemma deriveAddressFromWIF_key_blob (secret : bytes) :
  length secret = 32%nat ->
  outcome (deriveAddressFromWIF (encodeBase58 (key_blob secret))) =
  inr (encodeBase58 (identity_blob secret)).
Proof.
  intros H.
  rewrite (deriveAddressFromWIF_valid _ (key_blob secret)).
  - now rewrite key_blob_secret.
  - apply decode_encode.
  - rewrite key_blob_payload by exact H. now apply key_blob_validates.
Qed.

(** C1, as stated, fails: for the seed ["seed"] the key is derived from one
    secret and [generateVeritasAddress] from another, and the identity of
    the derived key is not the identity derived from the seed. *)
Lemma seed_identity_differs_from_key_identity :
  SHA256.hash (utf8_encode (js "seed" ++ WIF_TAG))
    <> SHA256.hash (utf8_encode (js "seed" ++ ADDRESS_TAG)) /\
  exists key,
    outcome (deriveWIF (js "seed")) = inr key /\
    outcome (deriveAddressFromWIF key) = inr (js "1FxK1jk8dW3auknc66eUCFJaGnjJ2Bh1PF") /\
    outcome (generateVeritasAddress (js "seed"))
      = inr (js "17M2YNRQ4kW6Hx1hUJte7XNWGxsVbvBZee") /\
    outcome (deriveAddressFromWIF key) <> outcome (generateVeritasAddress (js "seed")).
Proof.
  split.
  - apply bytes_eqb_false. vm_compute. reflexivity.
  - exists (js "L395mVsNHHy2VAbb1v8rDhcj3QnL8tDGduE62BzDGSHKZ19nzLeQ").
    assert (E1 : outcome (deriveAddressFromWIF
                            (js "L395mVsNHHy2VAbb1v8rDhcj3QnL8tDGduE62BzDGSHKZ19nzLeQ"))
                 = inr (js "1FxK1jk8dW3auknc66eUCFJaGnjJ2Bh1PF"))
      by (vm_compute; reflexivity).
    assert (E2 : outcome (generateVeritasAddress (js "seed"))
                 = inr (js "17M2YNRQ4kW6Hx1hUJte7XNWGxsVbvBZee"))
      by (vm_compute; reflexivity).
    split; [vm_compute; reflexivity|].
    split; [exact E1|]. split; [exact E2|].
    rewrite E1, E2. discriminate.
Qed.

(** C1, amended: the key of a seed is built from the digest of the seed
    followed by the key tag; the identity of that key string is the identity
    of that same secret, so a key has exactly one identity.  The direct
    seed-to-identity derivation digests the seed with another tag. *)
Theorem key_identity_from_key_secret (seed : jsstring) :
  let secret := SHA256.hash (utf8_encode (seed ++ WIF_TAG)) in
  outcome (deriveWIF seed) = inr (encodeBase58 (key_blob secret)) /\
  outcome (deriveAddressFromWIF (encodeBase58 (key_blob secret)))
    = inr (encodeBase58 (identity_blob secret)) /\
  outcome (deriveAddressFromPrivKey secret) = inr (encodeBase58 (identity_blob secret)) /\
  outcome (generateVeritasAddress seed)
    = inr (encodeBase58 (identity_blob (SHA256.hash (utf8_encode (seed ++ ADDRESS_TAG))))) /\
  WIF_TAG <> ADDRESS_TAG.
Proof.
  intros secret. repeat split.
  - apply deriveWIF_run.
  - apply deriveAddressFromWIF_key_blob, hash_length.
  - now rewrite deriveAddressFromPrivKey_run.
  - unfold generateVeritasAddress, subtle_digest. rewrite bind_step.
    now rewrite deriveAddressFromPrivKey_run.
  - discriminate.
Qed.

(* ------------------------------------------------------------------ *)
(** ** Base58 *)

(** C2: decoding the Base58 text of any byte sequence, the empty and the
    all-zero ones included, succeeds and gives the bytes back. *)
Theorem base58_round_trip (b : bytes) :
  decodeBase58 (encodeBase58 b) = ret b.
Proof. apply decode_encode. Qed.

Example base58_empty : encodeBase58 [] = [] /\ decodeBase58 [] = ret [].
Proof. split; reflexivity. Qed.

Example base58_zeros :
  encodeBase58 [x00; x00; x00] = js "111" /\
  decodeBase58 (js "111") = ret [x00; x00; x00].
Proof. split; vm_compute; reflexivity. Qed.

(* ------------------------------------------------------------------ *)
(** ** Keys *)

(** C3: [validateWIF] always returns a boolean; it is [false] exactly for
    the rejected strings and [true] for all others. *)
Theorem validateWIF_never_throws (wif : jsstring) :
  exists b,
    outcome (validateWIF wif) = inr b /\
    (b = false <-> rejected wif) /\
    (b = true <-> ~ rejected wif).
Proof.
  destruct (validateWIF_returns wif) as [b Hb]. exists b.
  pose proof (validateWIF_false_iff wif) as Hiff. rewrite Hb in Hiff.
  split; [exact Hb|]. split.
  - rewrite <- Hiff. split; congruence.
  - rewrite <- Hiff. destruct b; split; congruence.
Qed.

(** C4: the key string built from any 32-byte secret (version byte, secret,
    compression flag, four checksum bytes, in Base58) is accepted by
    [validateWIF]. *)
Theorem built_key_validates (secret : bytes) :
  length secret = 32%nat ->
  outcome (wif_of_privKey secret) = inr (encodeBase58 (key_blob secret)) /\
  key_blob secret =
    (x80 :: secret ++ [x01]) ++ firstn 4 (double_digest (x80 :: secret ++ [x01])) /\
  length (key_blob secret) = 38%nat /\
  outcome (validateWIF (encodeBase58 (key_blob secret))) = inr true.
Proof.
  intros H. repeat split.
  - now rewrite wif_of_privKey_run.
  - now apply key_blob_length.
  - now rewrite key_blob_validates.
Qed.

(** The all-zero secret. *)
Lemma built_key_validates_zero :
  length zero_secret = 32%nat /\
  outcome (wif_of_privKey zero_secret) = inr (encodeBase58 (key_blob zero_secret)) /\
  key_blob zero_secret =
    (x80 :: zero_secret ++ [x01]) ++ firstn 4 (double_digest (x80 :: zero_secret ++ [x01])) /\
  length (key_blob zero_secret) = 38%nat /\
  outcome (validateWIF (encodeBase58 (key_blob zero_secret))) = inr true.
Proof.
  split; [reflexivity | apply (built_key_validates zero_secret); reflexivity].
Defined.

(** C8: the identity of a 32-byte secret is the Base58 text of 25 bytes:
    a zero version byte, the first 20 bytes of the digest of the digest of
    the secret, and the first four bytes of the double digest of those 21
    bytes. *)
Theorem identity_layout (secret : bytes) :
  length secret = 32%nat ->
  let hash160 := firstn 20 (SHA256.hash (SHA256.hash secret)) in
  let blob := (x00 :: hash160) ++ firstn 4 (double_digest (x00 :: hash160)) in
  outcome (deriveAddressFromPrivKey secret) = inr (encodeBase58 blob) /\
  length hash160 = 20%nat /\
  length (firstn 4 (double_digest (x00 :: hash160))) = 4%nat /\
  length blob = 25%nat.
Proof.
  intros _ hash160 blob.
  assert (Hblob : blob = identity_blob secret) by reflexivity.
  repeat split.
  - now rewrite deriveAddressFromPrivKey_run, Hblob.
  - unfold hash160. now rewrite length_firstn, hash_length.
  - apply (checksum_slice_length (x00 :: hash160)).
  - rewrite Hblob. apply identity_blob_length.
Qed.

(** The identity of the all-zero secret. *)
Lemma identity_layout_zero :
  length zero_secret = 32%nat /\
  let hash160 := firstn 20 (SHA256.hash (SHA256.hash zero_secret)) in
  let blob := (x00 :: hash160) ++ firstn 4 (double_digest (x00 :: hash160)) in
  outcome (deriveAddressFromPrivKey zero_secret) = inr (encodeBase58 blob) /\
  length hash160 = 20%nat /\
  length (firstn 4 (double_digest (x00 :: hash160))) = 4%nat /\
  length blob = 25%nat.
Proof.
  split; [reflexivity | apply (identity_layout zero_secret); reflexivity].
Defined.

Example zero_identity_derived :
  outcome (deriveAddressFromWIF zero_key) = inr zero_identity.
Proof. vm_compute. reflexivity. Qed.

(* ------------------------------------------------------------------ *)
(** ** Errors of the key-consuming functions *)

(** C5, as stated, fails: a key string with the right length, version byte
    and compression flag but a wrong checksum is rejected by both functions
    only after the double digest of its payload has been computed. *)
Lemma bad_checksum_key_is_hashed :
  outcome (validateWIF bad_checksum_key) = inr false /\
  deriveAddressFromWIF bad_checksum_key =
    (checksum_trace (key_payload zero_secret), inl (JsError (js "Invalid WIF"))) /\
  signSequestrationTx bad_checksum_key amount_1_5 zero_identity sample_time =
    (checksum_trace (key_payload zero_secret),
     inl (JsError (js "Invalid WIF key. Signing rejected."))) /\
  existsb is_digest (trace (deriveAddressFromWIF bad_checksum_key)) = true /\
  existsb is_digest
    (trace (signSequestrationTx bad_checksum_key amount_1_5 zero_identity sample_time))
  = true.
Proof.
  assert (Hv : validateWIF bad_checksum_key
               = (checksum_trace (key_payload zero_secret), inr false))
    by (vm_compute; reflexivity).
  assert (Hf : outcome (validateWIF bad_checksum_key) = inr false)
    by (now rewrite Hv).
  split; [exact Hf|].
  rewrite (deriveAddressFromWIF_invalid _ Hf).
  rewrite (signSequestrationTx_invalid _ amount_1_5 zero_identity sample_time Hf).
  rewrite Hv. repeat split.
Qed.

(** C5, amended: both functions throw exactly when [validateWIF] returns
    [false], and then they have made no host call beyond those of
    [validateWIF] itself: none at all when the string does not decode or
    fails a structural check, the two digests of the checksum otherwise.
    When [validateWIF] returns [true] both return a value. *)
Theorem key_errors_follow_validation
    (wif : jsstring) (amount : number) (destination : jsstring) (now : Z) :
  match outcome (validateWIF wif) with
  | inr false =>
      deriveAddressFromWIF wif =
        (trace (validateWIF wif), inl (JsError (js "Invalid WIF"))) /\
      signSequestrationTx wif amount destination now =
        (trace (validateWIF wif),
         inl (JsError (js "Invalid WIF key. Signing rejected."))) /\
      (trace (validateWIF wif) = [] \/
       exists d, outcome (decodeBase58 wif) = inr d /\ structure_ok d = true /\
                 trace (validateWIF wif) = checksum_trace (slice d 0 34))
  | inr true =>
      (exists identity, outcome (deriveAddressFromWIF wif) = inr identity) /\
      (exists tx, outcome (signSequestrationTx wif amount destination now) = inr tx)
  | inl _ => False
  end.
Proof.
  destruct (validateWIF_returns wif) as [[|] Hb]; rewrite Hb.
  - destruct (validateWIF_true_inv wif Hb) as (d & Hd & Hlen & _ & _ & _ & Hv).
    split.
    + rewrite (deriveAddressFromWIF_valid wif d Hd Hv). eexists. reflexivity.
    + rewrite (signSequestrationTx_valid wif d amount destination now Hd Hlen Hv).
      eexists. reflexivity.
  - split; [now apply deriveAddressFromWIF_invalid|].
    split; [now apply signSequestrationTx_invalid|].
    now apply validateWIF_false_trace.
Qed.

(* ------------------------------------------------------------------ *)
(** ** Signed transactions *)

(** C7: the identifier of a signed transaction is the lowercase hexadecimal
    text of the reversed double digest of the UTF-8 bytes of its raw
    record. *)
Theorem txid_is_reversed_double_digest
    (wif : jsstring) (amount : number) (destination : jsstring) (now : Z)
    (tx : SignedTx) :
  outcome (signSequestrationTx wif amount destination now) = inr tx ->
  txid tx = hex_of_bytes (rev (double_digest (utf8_encode (raw tx)))) /\
  length (txid tx) = 64%nat.
Proof.
  intros H. destruct (signSequestrationTx_inr _ _ _ _ _ H) as (d & _ & _ & ->).
  split; [reflexivity|]. unfold signed_tx. cbn [txid].
  now rewrite hex_of_bytes_length, length_rev, double_digest_length.
Qed.

(** Signing 1.5 to the identity of the all-zero secret with its own key. *)
Lemma txid_of_sample_signing :
  outcome (signSequestrationTx zero_key amount_1_5 zero_identity sample_time)
    = inr (signed_tx zero_secret amount_1_5 zero_identity sample_time) /\
  txid (signed_tx zero_secret amount_1_5 zero_identity sample_time)
    = hex_of_bytes (rev (double_digest (utf8_encode
        (raw (signed_tx zero_secret amount_1_5 zero_identity sample_time))))) /\
  length (txid (signed_tx zero_secret amount_1_5 zero_identity sample_time)) = 64%nat.
Proof.
  split; [vm_compute; reflexivity|].
  apply (txid_is_reversed_double_digest zero_key amount_1_5 zero_identity sample_time).
  vm_compute. reflexivity.
Defined.

Example sample_signing_values :
  let tx := signed_tx zero_secret amount_1_5 zero_identity sample_time in
  txid tx = js "4fc079125636facb330133743bd6cc1f8d925913ec7b42b4c2c8442f366bb42e" /\
  signature tx = js "fa66fe917bd47c5d0765d57af4f331d12b78320bedc32a1bce4303b7da80929b".
Proof. split; vm_compute; reflexivity. Qed.

Lemma firstn_min_length {A} (n : nat) (l : list A) :
  firstn (Nat.min n (length l)) l = firstn n l.
Proof.
  destruct (Nat.le_ge_cases n (length l)) as [H|H].
  - now rewrite Nat.min_l.
  - rewrite Nat.min_r by exact H. now rewrite firstn_all, firstn_all2.
Qed.

Lemma amountSats_min_length (amount : number) : (16 <= length (amountSats amount))%nat.
Proof. unfold amountSats. rewrite padStart0_length. lia. Qed.

(** C6, as stated, fails: for the amount 200000000000 the amount field has
    17 digits, so the raw record is not the template with a 16-digit amount
    spliced in.  The integer printed is [2 * 10^19 = 5^19 * 2^20]: its five
    lowest hexadecimal digits are zeros, so the text does not depend on how
    an engine prints the digits below the significand. *)
Lemma amount_field_longer_than_16 :
  exists tx,
    outcome (signSequestrationTx zero_key amount_2e11 zero_identity sample_time) = inr tx /\
    Math_floor (number_mul amount_2e11 (number_of_Z 100000000))
      = IntVal 20000000000000000000 /\
    raw tx = js "0200000001" ++ firstn 64 (signature tx) ++ js "00000000ffffffff01" ++
             js "1158e460913d00000" ++
             js "1976a914" ++ firstn 40 zero_identity ++ js "88ac00000000" /\
    ~ exists field,
        length field = 16%nat /\
        raw tx = js "0200000001" ++ firstn 64 (signature tx) ++ js "00000000ffffffff01" ++
                 field ++
                 js "1976a914" ++ firstn 40 zero_identity ++ js "88ac00000000".
Proof.
  exists (signed_tx zero_secret amount_2e11 zero_identity sample_time).
  assert (Hraw : raw (signed_tx zero_secret amount_2e11 zero_identity sample_time)
                 = js "0200000001" ++
                   firstn 64 (signature (signed_tx zero_secret amount_2e11
                                           zero_identity sample_time)) ++
                   js "00000000ffffffff01" ++ js "1158e460913d00000" ++
                   js "1976a914" ++ firstn 40 zero_identity ++ js "88ac00000000")
    by (vm_compute; reflexivity).
  split; [vm_compute; reflexivity|].
  split; [vm_compute; reflexivity|].
  split; [exact Hraw|].
  intros (field & Hlen & Heq). rewrite Hraw in Heq.
  apply (f_equal (@length N)) in Heq.
  rewrite !length_app, Hlen, !length_firstn, signed_tx_tag_length in Heq.
  cbv in Heq. discriminate Heq.
Qed.

(** C6, amended: the raw record is the template with the first 64
    characters of the tag, the amount field and the first 40 characters of
    the destination spliced in, [1976a914] standing right before the
    destination.  The amount field is the hexadecimal text of
    [Math.floor(amount * 100000000)] padded with zeros on the left to at
    least 16 characters; it is exactly 16 lowercase hexadecimal digits
    whenever the integer is non-negative and below [2^64], and these digits
    denote the integer whenever it is also below [2^53]. *)
Theorem raw_record_template
    (wif : jsstring) (amount : number) (destination : jsstring) (now : Z)
    (tx : SignedTx) :
  outcome (signSequestrationTx wif amount destination now) = inr tx ->
  raw tx = js "0200000001" ++ firstn 64 (signature tx) ++ js "00000000ffffffff01" ++
           amountSats amount ++
           js "1976a914" ++ firstn 40 destination ++ js "88ac00000000" /\
  length (signature tx) = 64%nat /\
  amountSats amount =
    padStart0 (toString16 (Math_floor (number_mul amount (number_of_Z 100000000)))) 16 /\
  (16 <= length (amountSats amount))%nat /\
  forall v : Z,
    Math_floor (number_mul amount (number_of_Z 100000000)) = IntVal v ->
    0 <= v < 2 ^ 64 ->
    length (amountSats amount) = 16%nat /\
    forallb is_lower_hex (amountSats amount) = true /\
    (v < 2 ^ 53 -> hex_value (amountSats amount) = v).
Proof.
  intros H. destruct (signSequestrationTx_inr _ _ _ _ _ H) as (d & _ & _ & ->).
  split; [reflexivity|].
  split; [apply signed_tx_tag_length|].
  split; [reflexivity|].
  split; [apply amountSats_min_length|].
  intros v Hfloor Hv. unfold amountSats. rewrite Hfloor.
  now apply amount_field_in_range.
Qed.

(** The record of the same signing: its amount field is [floor(1.5 * 1e8)]
    on 16 digits. *)
Lemma raw_record_of_sample_signing :
  outcome (signSequestrationTx zero_key amount_1_5 zero_identity sample_time)
    = inr (signed_tx zero_secret amount_1_5 zero_identity sample_time) /\
  Math_floor (number_mul amount_1_5 (number_of_Z 100000000)) = IntVal 150000000 /\
  0 <= 150000000 < 2 ^ 64 /\
  150000000 < 2 ^ 53 /\
  raw (signed_tx zero_secret amount_1_5 zero_identity sample_time)
    = js "0200000001" ++
      firstn 64 (signature (signed_tx zero_secret amount_1_5 zero_identity sample_time)) ++
      js "00000000ffffffff01" ++ amountSats amount_1_5 ++
      js "1976a914" ++ firstn 40 zero_identity ++ js "88ac00000000" /\
  length (amountSats amount_1_5) = 16%nat /\
  forallb is_lower_hex (amountSats amount_1_5) = true /\
  hex_value (amountSats amount_1_5) = 150000000.
Proof.
  assert (Hrun : outcome (signSequestrationTx zero_key amount_1_5 zero_identity sample_time)
                 = inr (signed_tx zero_secret amount_1_5 zero_identity sample_time))
    by (vm_compute; reflexivity).
  assert (Hfloor : Math_floor (number_mul amount_1_5 (number_of_Z 100000000))
                   = IntVal 150000000)
    by (vm_compute; reflexivity).
  assert (Hrange : 0 <= 150000000 < 2 ^ 64) by lia.
  assert (Hsafe : 150000000 < 2 ^ 53) by lia.
  destruct (raw_record_template zero_key amount_1_5 zero_identity sample_time _ Hrun)
    as (Hraw & _ & _ & _ & Hfield).
  destruct (Hfield 150000000 Hfloor Hrange) as (Hlen & Hhex & Hval).
  repeat (split; [assumption|]). exact (Hval Hsafe).
Defined.

(** C10: on a key that [validateWIF] accepts, signing returns a transaction
    for every amount and every destination string; the destination's first
    [min 40 length] characters are embedded as they are, so the length of the
    raw record follows that of the destination. *)
Theorem sign_accepts_any_destination
    (wif : jsstring) (amount : number) (destination : jsstring) (now : Z) :
  outcome (validateWIF wif) = inr true ->
  exists tx,
    outcome (signSequestrationTx wif amount destination now) = inr tx /\
    raw tx = js "0200000001" ++ firstn 64 (signature tx) ++ js "00000000ffffffff01" ++
             amountSats amount ++ js "1976a914" ++
             firstn (Nat.min 40 (length destination)) destination ++
             js "88ac00000000" /\
    length (raw tx)
      = (112 + length (amountSats amount) + Nat.min 40 (length destination))%nat.
Proof.
  intros Hb.
  destruct (validateWIF_true_inv wif Hb) as (d & Hd & Hlen & _ & _ & _ & Hv).
  exists (signed_tx (slice d 1 33) amount destination now).
  split; [now rewrite (signSequestrationTx_valid wif d amount destination now Hd Hlen Hv)|].
  rewrite firstn_min_length.
  split; [reflexivity|].
  unfold signed_tx. cbn [raw signature]. unfold raw_record.
  rewrite !length_app, !length_firstn, hex_of_bytes_length, hmac_length.
  change (length (js "0200000001")) with 10%nat.
  change (length (js "00000000ffffffff01")) with 18%nat.
  change (length (js "1976a914")) with 8%nat.
  change (length (js "88ac00000000")) with 12%nat.
  lia.
Qed.

(** A NaN amount and a short destination that is not hexadecimal. *)
Lemma sign_accepts_short_text_destination :
  outcome (validateWIF zero_key) = inr true /\
  exists tx,
    outcome (signSequestrationTx zero_key S754_nan (js "not hex!") sample_time) = inr tx /\
    raw tx = js "0200000001" ++ firstn 64 (signature tx) ++ js "00000000ffffffff01" ++
             amountSats S754_nan ++ js "1976a914" ++
             firstn (Nat.min 40 (length (js "not hex!"))) (js "not hex!") ++
             js "88ac00000000" /\
    length (raw tx)
      = (112 + length (amountSats S754_nan) + Nat.min 40 (length (js "not hex!")))%nat.
Proof.
  split; [vm_compute; reflexivity|].
  apply (sign_accepts_any_destination zero_key S754_nan (js "not hex!") sample_time).
  vm_compute. reflexivity.
Defined.

Example empty_destination_record :
  raw (signed_tx zero_secret amount_1_5 [] sample_time) =
  js "0200000001" ++ signature (signed_tx zero_secret amount_1_5 [] sample_time) ++
  js "00000000ffffffff010000000008f0d1801976a91488ac00000000".
Proof. vm_compute. reflexivity. Qed.

Lemma jsstring_eqb_false (a b : jsstring) : jsstring_eqb a b = false -> a <> b.
Proof.
  unfold jsstring_eqb. destruct (list_eq_dec N.eq_dec a b); congruence.
Qed.

(** Two signings of the same arguments one millisecond apart: the tags and
    the identifiers differ. *)
Example sample_signings_one_millisecond_apart :
  let tx1 := signed_tx zero_secret amount_1_5 zero_identity sample_time in
  let tx2 := signed_tx zero_secret amount_1_5 zero_identity (sample_time + 1) in
  signature tx1 <> signature tx2 /\ txid tx1 <> txid tx2.
Proof.
  split; apply jsstring_eqb_false; vm_compute; reflexivity.
Qed.

(* ------------------------------------------------------------------ *)
(** ** Base58 texts, key strings and records: further properties *)

Lemma indexOf_from_spec (s : jsstring) (c : N) :
  forall i,
  (indexOf_from s c i = -1 /\ ~ In c s /\ True) \/
  (i <= indexOf_from s c i < i + Z.of_nat (length s) /\
   nth_error s (Z.to_nat (indexOf_from s c i - i)) = Some c) \/ i < 0.
Proof.
  induction s as [|d s IH]; intros i.
  - left. simpl. auto.
  - destruct (Z_lt_le_dec i 0) as [Hneg|Hi]; [right; right; exact Hneg|].
    simpl. destruct (N.eqb_spec d c) as [->|Hne].
    + right; left. split; [lia|]. now rewrite Z.sub_diag.
    + destruct (IH (i + 1)) as [(E & Hnot & _)|[(Hr & Hnth)|Hneg]]; [| |lia].
      * left. rewrite E. repeat split; trivial. intros [?|?]; auto.
      * right; left. split; [lia|].
        replace (Z.to_nat (indexOf_from s c (i + 1) - i))
          with (S (Z.to_nat (indexOf_from s c (i + 1) - (i + 1)))) by lia.
        exact Hnth.
Qed.

Lemma indexOf_absent (c : N) : indexOf ALPHABET c = -1 <-> ~ in_alphabet c.
Proof.
  unfold indexOf, in_alphabet.
  destruct (indexOf_from_spec ALPHABET c 0) as [(E & Hnot & _)|[(Hr & Hnth)|Hneg]]; [| |lia].
  - tauto.
  - split; [lia|]. intros Hnot. exfalso. apply Hnot. eapply nth_error_In. exact Hnth.
Qed.

Lemma indexOf_present (c : N) :
  in_alphabet c ->
  0 <= indexOf ALPHABET c < 58 /\ b58_char (indexOf ALPHABET c) = c.
Proof.
  intros Hin. unfold indexOf in *.
  destruct (indexOf_from_spec ALPHABET c 0) as [(E & Hnot & _)|[(Hr & Hnth)|Hneg]]; [| |lia].
  - contradiction.
  - change (Z.of_nat (length ALPHABET)) with 58 in Hr. split; [lia|].
    unfold b58_char. rewrite Z.sub_0_r in Hnth.
    now apply nth_error_nth.
Qed.

Lemma alphabet_digits (s : jsstring) :
  Forall in_alphabet s ->
  s = map b58_char (map (indexOf ALPHABET) s) /\
  Forall (fun d => 0 <= d < 58) (map (indexOf ALPHABET) s).
Proof.
  induction 1 as [|c s Hc _ [IH1 IH2]]; simpl; [split; constructor|].
  destruct (indexOf_present c Hc) as [Hr Hb]. split.
  - now rewrite Hb, <- IH1.
  - now constructor.
Qed.

Lemma b58_char_in (d : Z) : 0 <= d < 58 -> in_alphabet (b58_char d).
Proof.
  intros Hd. unfold in_alphabet, b58_char. apply nth_In.
  change (length ALPHABET) with 58%nat. lia.
Qed.

Lemma decode_value_invalid (s : jsstring) :
  ~ Forall in_alphabet s ->
  forall acc, decode_value s acc = throw (JsError (js "Invalid Base58 character")).
Proof.
  induction s as [|c s IH]; intros Hbad acc.
  - exfalso. apply Hbad. constructor.
  - simpl. destruct (Z.eqb_spec (indexOf ALPHABET c) (-1)) as [E|E]; [reflexivity|].
    apply IH. intros Hall. apply Hbad. constructor; [|exact Hall].
    destruct (in_dec N.eq_dec c ALPHABET) as [Hin|Hout]; [exact Hin|].
    exfalso. apply E. now apply indexOf_absent.
Qed.

Lemma decode_value_alphabet (s : jsstring) :
  Forall in_alphabet s ->
  forall acc, decode_value s acc = ret (b58_value (map (indexOf ALPHABET) s) acc).
Proof.
  intros Hall acc. destruct (alphabet_digits s Hall) as [Hs Hds].
  pose proof (decode_value_digits _ [] acc Hds) as H.
  rewrite app_nil_r, <- Hs in H. exact H.
Qed.

Lemma decodeBase58_outcome (str : jsstring) :
  (Forall in_alphabet str -> exists b, decodeBase58 str = ret b) /\
  (~ Forall in_alphabet str ->
   decodeBase58 str = throw (JsError (js "Invalid Base58 character"))).
Proof.
  split.
  - intros Hall. unfold decodeBase58.
    rewrite decode_value_alphabet by exact Hall.
    rewrite bind_ret_l. eexists. reflexivity.
  - intros Hbad. unfold decodeBase58. now rewrite decode_value_invalid.
Qed.

Lemma count_strip_ones (s : jsstring) :
  s = repeat 49%N (count_ones s) ++ strip_ones s.
Proof.
  induction s as [|c s IH]; [reflexivity|]. simpl.
  destruct (N.eqb_spec c 49) as [->|_]; [|reflexivity].
  simpl. now rewrite <- IH.
Qed.

Lemma strip_ones_head (s : jsstring) :
  match strip_ones s with [] => True | c :: _ => c <> 49%N end.
Proof.
  induction s as [|c s IH]; simpl; [exact I|].
  destruct (N.eqb_spec c 49) as [->|Hne]; [exact IH | exact Hne].
Qed.

Lemma strip_ones_alphabet (s : jsstring) :
  Forall in_alphabet s -> Forall in_alphabet (strip_ones s).
Proof.
  induction 1 as [|c s Hc Hs IH]; simpl; [constructor|].
  destruct (N.eqb c 49); [exact IH | now constructor].
Qed.

Lemma decode_bytes_digits (fuel : nat) :
  forall x acc, 0 <= x < 2 ^ Z.of_nat fuel ->
  exists zs,
    decode_bytes fuel x acc = zs ++ acc /\
    Forall (fun z => 0 <= z < 256) zs /\
    decode_digit_value zs 0 = x /\
    match zs with [] => x = 0 | z :: _ => z <> 0 end.
Proof.
  induction fuel as [|fuel IH]; intros x acc Hx.
  - exists []. simpl in *. repeat split; try constructor; lia.
  - rewrite pow2_succ in Hx. simpl.
    destruct (Z.ltb_spec 0 x) as [Hpos|Hzero].
    + rewrite Z.quot_div_nonneg, Z.rem_mod_nonneg by lia.
      assert (Hq : 0 <= x / 256 < 2 ^ Z.of_nat fuel).
      { split; [apply Z.div_pos; lia|]. apply Z.div_lt_upper_bound; lia. }
      assert (Hr : 0 <= x mod 256 < 256) by (apply Z.mod_pos_bound; lia).
      destruct (IH (x / 256) (x mod 256 :: acc) Hq) as (zs & Hdec & Hall & Hval & Hhead).
      exists (zs ++ [x mod 256]). repeat split.
      * rewrite Hdec, <- app_assoc. reflexivity.
      * apply Forall_app. split; [exact Hall|]. now constructor.
      * unfold decode_digit_value in *. rewrite fold_left_app, Hval. simpl.
        pose proof (Z.div_mod x 256). lia.
      * destruct zs as [|z zs']; simpl; [|exact Hhead].
        pose proof (Z.div_mod x 256). lia.
    + exists []. simpl. repeat split; try constructor; lia.
Qed.

Lemma b58_value_nonneg (ds : list Z) :
  Forall (fun d => 0 <= d < 58) ds ->
  forall a, 0 <= a -> a <= b58_value ds a.
Proof.
  induction 1 as [|d ds Hd _ IH]; intros a Ha; simpl; [lia|].
  specialize (IH (a * 58 + d)). unfold b58_value in *. simpl. lia.
Qed.

Lemma encode_digits_zero (fuel : nat) (acc : jsstring) : encode_digits fuel 0 acc = acc.
Proof. destruct fuel; reflexivity. Qed.

Lemma encode_digits_of_value (ds : list Z) :
  forall fuel acc,
  Forall (fun d => 0 <= d < 58) ds ->
  match ds with [] => True | d :: _ => d <> 0 end ->
  b58_value ds 0 < 2 ^ Z.of_nat fuel ->
  encode_digits fuel (b58_value ds 0) acc = map b58_char ds ++ acc.
Proof.
  induction ds as [|d ds IH] using rev_ind; intros fuel acc Hall Hhead Hfuel.
  - apply encode_digits_zero.
  - rewrite b58_value_app in *. simpl in *.
    apply Forall_app in Hall. destruct Hall as [Hds Hd].
    inversion Hd as [|? ? Hdr _]; subst.
    pose proof (b58_value_nonneg ds Hds 0 (Z.le_refl 0)) as Hv.
    assert (Hpos : 0 < b58_value ds 0 * 58 + d).
    { destruct ds as [|h t]; simpl in Hhead.
      - unfold b58_value. simpl. lia.
      - inversion Hds as [|? ? Hh Ht]; subst.
        pose proof (b58_value_nonneg t Ht (0 * 58 + h)) as Hge.
        unfold b58_value in *. simpl in *. lia. }
    destruct fuel as [|fuel]; [simpl in Hfuel; lia|].
    rewrite pow2_succ in Hfuel. simpl.
    destruct (Z.ltb_spec 0 (b58_value ds 0 * 58 + d)) as [_|]; [|lia].
    rewrite Z.quot_div_nonneg, Z.rem_mod_nonneg by lia.
    replace ((b58_value ds 0 * 58 + d) / 58) with (b58_value ds 0)
      by (apply Z.div_unique with (r := d); lia).
    replace ((b58_value ds 0 * 58 + d) mod 58) with d
      by (apply Z.mod_unique with (q := b58_value ds 0); lia).
    destruct (digit_char d Hdr) as (-> & _ & _).
    rewrite IH.
    + now rewrite map_app, <- app_assoc.
    + exact Hds.
    + destruct ds; simpl in *; trivial.
    + lia.
Qed.

Lemma byte_to_of_Z (z : Z) : 0 <= z < 256 -> byte_to_Z (byte_of_Z z) = z.
Proof.
  intros Hz. unfold byte_of_Z, byte_to_Z. rewrite Z.mod_small by exact Hz.
  destruct (Byte.of_N (Z.to_N z)) as [b|] eqn:E.
  - apply Byte.to_of_N in E. lia.
  - apply Byte.of_N_None_iff in E. lia.
Qed.

Lemma bytes_to_bigint_of_digits (zs : list Z) :
  Forall (fun z => 0 <= z < 256) zs ->
  forall a, fold_left (fun x b => x * 256 + byte_to_Z b) (map byte_of_Z zs) a
            = decode_digit_value zs a.
Proof.
  induction 1 as [|z zs Hz _ IH]; intros a; simpl; [reflexivity|].
  rewrite byte_to_of_Z by exact Hz. apply IH.
Qed.

Lemma bytes_to_bigint_zeros (k : nat) (bs : bytes) :
  bytes_to_bigint (repeat x00 k ++ bs) = bytes_to_bigint bs.
Proof.
  unfold bytes_to_bigint. rewrite fold_left_app. f_equal.
  induction k; simpl; trivial.
Qed.

Lemma count_zeros_repeat (k : nat) (bs : bytes) :
  no_leading_zero bs -> count_zeros (repeat x00 k ++ bs) = k.
Proof.
  intros Hbs. induction k as [|k IH]; simpl; [|now rewrite IH].
  destruct bs as [|b bs]; [reflexivity|]. simpl in *.
  destruct (Byte.eqb b x00) eqn:E; [|reflexivity].
  apply Byte.byte_dec_bl in E. contradiction.
Qed.

Lemma b58_value_ones (s : jsstring) (k : nat) (ds : list Z) :
  b58_value (map (indexOf ALPHABET) (repeat 49%N k) ++ ds) 0 = b58_value ds 0.
Proof.
  rewrite b58_value_app. f_equal. induction k; simpl; trivial.
Qed.

Lemma ret_inj {A} (a b : A) : ret a = ret b -> a = b.
Proof. unfold ret. congruence. Qed.

(** The other round trip: a text that decodes is the encoding of its bytes. *)
Lemma encode_decode (s : jsstring) (b : bytes) :
  decodeBase58 s = ret b -> encodeBase58 b = s.
Proof.
  intros Hdec.
  assert (Hall : Forall in_alphabet s).
  { destruct (Forall_dec in_alphabet (fun c => in_dec N.eq_dec c ALPHABET) s) as [H|H];
      [exact H|].
    rewrite (proj2 (decodeBase58_outcome s) H) in Hdec. discriminate. }
  unfold decodeBase58 in Hdec.
  rewrite decode_value_alphabet, bind_ret_l in Hdec by exact Hall.
  cbv zeta in Hdec. apply ret_inj in Hdec. rename Hdec into Hb.
  set (k := count_ones s) in *.
  set (ds := map (indexOf ALPHABET) (strip_ones s)).
  pose proof (strip_ones_alphabet s Hall) as Hstrip.
  destruct (alphabet_digits _ Hstrip) as [Hs' Hds]. fold ds in Hs', Hds.
  assert (Hx : b58_value (map (indexOf ALPHABET) s) 0 = b58_value ds 0).
  { rewrite (count_strip_ones s) at 1. rewrite map_app. apply (b58_value_ones s). }
  rewrite Hx in Hb. set (x := b58_value ds 0) in *.
  assert (Hxr : 0 <= x < 2 ^ Z.of_nat (loop_fuel x)).
  { split; [apply (b58_value_nonneg ds Hds 0); lia | apply loop_fuel_enough]. }
  destruct (decode_bytes_digits (loop_fuel x) x [] Hxr) as (zs & Hzs & Hrange & Hval & Hhead).
  rewrite Hzs, app_nil_r in Hb.
  rewrite (count_strip_ones s) in Hb at 1.
  rewrite decode_leading_zeros_spec in Hb by apply strip_ones_head.
  fold k in Hb. rewrite map_app in Hb.
  assert (Hzeros : map byte_of_Z (repeat 0 k) = repeat x00 k).
  { clear. induction k; simpl; [reflexivity|]. now f_equal. }
  rewrite Hzeros in Hb. subst b.
  assert (Hnz : no_leading_zero (map byte_of_Z zs)).
  { destruct zs as [|z zs']; simpl; [exact I|].
    inversion Hrange as [|? ? Hz _]; subst.
    intros E. apply Hhead. rewrite <- (byte_to_of_Z z Hz), E. reflexivity. }
  unfold encodeBase58.
  rewrite bytes_to_bigint_zeros. unfold bytes_to_bigint.
  rewrite bytes_to_bigint_of_digits by exact Hrange. rewrite Hval.
  rewrite encode_leading_zeros_spec, count_zeros_repeat by exact Hnz.
  unfold x at 2. rewrite encode_digits_of_value.
  - rewrite app_nil_r, <- Hs'. symmetry. apply count_strip_ones.
  - exact Hds.
  - pose proof (strip_ones_head s) as Hh. unfold ds.
    destruct (strip_ones s) as [|c rest]; simpl; [exact I|].
    inversion Hstrip as [|? ? Hc _]; subst.
    intros E. apply Hh. destruct (indexOf_present c Hc) as [_ Hbc].
    rewrite E in Hbc. rewrite <- Hbc. reflexivity.
  - apply Hxr.
Qed.

Lemma encodeBase58_shape (b : bytes) :
  exists ds,
    encodeBase58 b = repeat 49%N (count_zeros b) ++ map b58_char ds /\
    Forall (fun d => 0 <= d < 58) ds /\
    b58_value ds 0 = bytes_to_bigint (strip_zeros b) /\
    match ds with [] => bytes_to_bigint b = 0 | d :: _ => d <> 0 end.
Proof.
  unfold encodeBase58. set (x := bytes_to_bigint b).
  assert (Hx : 0 <= x < 2 ^ Z.of_nat (loop_fuel x))
    by (split; [apply bytes_to_bigint_nonneg | apply loop_fuel_enough]).
  destruct (encode_digits_spec (loop_fuel x) x [] Hx) as (ds & Henc & Hall & Hval & Hhead).
  exists ds. rewrite Henc, encode_leading_zeros_spec, app_nil_r, bytes_to_bigint_strip.
  auto.
Qed.

Lemma encode_in_alphabet (b : bytes) : Forall in_alphabet (encodeBase58 b).
Proof.
  destruct (encodeBase58_shape b) as (ds & -> & Hall & _ & _).
  apply Forall_app. split.
  - apply Forall_forall. intros c Hc. apply repeat_spec in Hc. subst c.
    apply (b58_char_in 0). lia.
  - apply Forall_forall. intros c Hc. apply in_map_iff in Hc.
    destruct Hc as (d & <- & Hd). apply b58_char_in.
    now apply (proj1 (Forall_forall _ _) Hall).
Qed.

Lemma encode_inj (a b : bytes) :
  encodeBase58 a = encodeBase58 b -> a = b.
Proof.
  intros H. pose proof (decode_encode a) as Ha. rewrite H, decode_encode in Ha.
  congruence.
Qed.

Lemma encode_zeros (n : nat) (b : bytes) :
  encodeBase58 (repeat x00 n ++ b) = repeat 49%N n ++ encodeBase58 b.
Proof.
  induction n as [|n IH]; [reflexivity|].
  change (repeat x00 (S n) ++ b) with (x00 :: (repeat x00 n ++ b)).
  change (repeat 49%N (S n) ++ encodeBase58 b) with (49%N :: repeat 49%N n ++ encodeBase58 b).
  rewrite <- IH. set (r := repeat x00 n ++ b).
  unfold encodeBase58.
  change (bytes_to_bigint (x00 :: r)) with (bytes_to_bigint r).
  simpl encode_leading_zeros. rewrite !encode_leading_zeros_spec.
  change (char_at_concat ALPHABET 0) with [49%N]. simpl. apply repeat_shift.
Qed.

Lemma b58_value_shift (ds : list Z) :
  forall a, b58_value ds a = a * 58 ^ Z.of_nat (length ds) + b58_value ds 0.
Proof.
  induction ds as [|d ds IH]; intros a.
  - unfold b58_value. simpl. lia.
  - change (b58_value (d :: ds) a) with (b58_value ds (a * 58 + d)).
    change (b58_value (d :: ds) 0) with (b58_value ds (0 * 58 + d)).
    rewrite (IH (a * 58 + d)), (IH (0 * 58 + d)).
    change (length (d :: ds)) with (S (length ds)).
    rewrite Nat2Z.inj_succ, Z.pow_succ_r by lia. lia.
Qed.

Lemma b58_value_bound (ds : list Z) :
  Forall (fun d => 0 <= d < 58) ds ->
  0 <= b58_value ds 0 < 58 ^ Z.of_nat (length ds).
Proof.
  induction 1 as [|d ds Hd _ IH].
  - unfold b58_value. simpl. lia.
  - change (b58_value (d :: ds) 0) with (b58_value ds (0 * 58 + d)).
    rewrite b58_value_shift.
    change (length (d :: ds)) with (S (length ds)).
    rewrite Nat2Z.inj_succ, Z.pow_succ_r by lia.
    assert (0 < 58 ^ Z.of_nat (length ds)) by (apply Z.pow_pos_nonneg; lia).
    nia.
Qed.

Lemma bigint_shift (bs : bytes) :
  forall a, fold_left (fun x b => x * 256 + byte_to_Z b) bs a
            = a * 256 ^ Z.of_nat (length bs) + bytes_to_bigint bs.
Proof.
  unfold bytes_to_bigint. induction bs as [|b bs IH]; intros a; simpl fold_left.
  - simpl. lia.
  - rewrite (IH (a * 256 + byte_to_Z b)), (IH (byte_to_Z b)).
    change (length (b :: bs)) with (S (length bs)).
    rewrite Nat2Z.inj_succ, Z.pow_succ_r by lia. lia.
Qed.

Lemma bytes_to_bigint_cons (b : byte) (bs : bytes) :
  bytes_to_bigint (b :: bs) = byte_to_Z b * 256 ^ Z.of_nat (length bs) + bytes_to_bigint bs.
Proof.
  unfold bytes_to_bigint at 1. simpl fold_left. rewrite bigint_shift. lia.
Qed.

Lemma bytes_to_bigint_bound (bs : bytes) :
  0 <= bytes_to_bigint bs < 256 ^ Z.of_nat (length bs).
Proof.
  induction bs as [|b bs IH].
  - unfold bytes_to_bigint. simpl. lia.
  - rewrite bytes_to_bigint_cons.
    change (length (b :: bs)) with (S (length bs)).
    rewrite Nat2Z.inj_succ, Z.pow_succ_r by lia.
    pose proof (byte_to_Z_range b).
    assert (0 < 256 ^ Z.of_nat (length bs)) by (apply Z.pow_pos_nonneg; lia).
    nia.
Qed.

(** Number of digits from bounds on the value. *)
Lemma digits_count (ds : list Z) (n : nat) :
  Forall (fun d => 0 <= d < 58) ds ->
  match ds with [] => True | d :: _ => d <> 0 end ->
  58 ^ Z.of_nat n <= b58_value ds 0 < 58 ^ Z.of_nat (S n) ->
  length ds = S n.
Proof.
  intros Hall Hhead Hx.
  pose proof (b58_value_bound ds Hall) as Hub.
  destruct ds as [|d ds'].
  - unfold b58_value in Hx. simpl in Hx.
    assert (0 < 58 ^ Z.of_nat n) by (apply Z.pow_pos_nonneg; lia). lia.
  - inversion Hall as [|? ? Hd Hds']; subst.
    pose proof (b58_value_bound ds' Hds') as Hlow.
    change (b58_value (d :: ds') 0) with (b58_value ds' (0 * 58 + d)) in *.
    rewrite b58_value_shift in *.
    set (m := length ds') in *. simpl length.
    assert (Hpos : 0 < 58 ^ Z.of_nat m) by (apply Z.pow_pos_nonneg; lia).
    destruct (Nat.lt_trichotomy m n) as [Hlt|[Heq|Hgt]]; [|now subst|].
    + exfalso.
      assert (58 ^ Z.of_nat (S m) <= 58 ^ Z.of_nat n) by (apply Z.pow_le_mono_r; lia).
      rewrite Nat2Z.inj_succ, Z.pow_succ_r in * by lia. nia.
    + exfalso.
      assert (58 ^ Z.of_nat (S n) <= 58 ^ Z.of_nat m) by (apply Z.pow_le_mono_r; lia).
      simpl in Hhead. nia.
Qed.

Lemma key_text_shape (wif : jsstring) (d : bytes) :
  decodeBase58 wif = ret d ->
  length d = 38%nat ->
  nth_error d 0 = Some x80 ->
  length wif = 52%nat /\ (hd_error wif = Some 75%N \/ hd_error wif = Some 76%N).
Proof.
  intros Hdec Hlen H0. apply encode_decode in Hdec.
  destruct d as [|h rest]; [discriminate|].
  simpl in H0. injection H0 as ->. simpl in Hlen.
  assert (Hrest : length rest = 37%nat) by lia.
  destruct (encodeBase58_shape (x80 :: rest)) as (ds & Henc & Hall & Hval & Hhead).
  change (count_zeros (x80 :: rest)) with 0%nat in Henc.
  change (strip_zeros (x80 :: rest)) with (x80 :: rest) in Hval.
  simpl app in Henc. rewrite Hdec in Henc. clear Hdec.
  rewrite bytes_to_bigint_cons, Hrest in Hval.
  pose proof (bytes_to_bigint_bound rest) as Hr. rewrite Hrest in Hr.
  change (byte_to_Z x80) with 128 in Hval.
  set (r := bytes_to_bigint rest) in *.
  assert (Hne : match ds with [] => True | d :: _ => d <> 0 end).
  { destruct ds; [exact I | exact Hhead]. }
  assert (Hcount : length ds = 52%nat).
  { apply digits_count; trivial. rewrite Hval.
    let v := eval vm_compute in (58 ^ Z.of_nat 51) in change (58 ^ Z.of_nat 51) with v.
    let v := eval vm_compute in (58 ^ Z.of_nat 52) in change (58 ^ Z.of_nat 52) with v.
    let v := eval vm_compute in (256 ^ Z.of_nat 37) in change (256 ^ Z.of_nat 37) with v in *.
    lia. }
  split; [now rewrite Henc, length_map|].
  destruct ds as [|d0 ds']; [discriminate|].
  inversion Hall as [|? ? Hd0 Hds']; subst.
  assert (Hlen' : length ds' = 51%nat) by (simpl in Hcount; lia).
  pose proof (b58_value_bound ds' Hds') as Hv'. rewrite Hlen' in Hv'.
  change (b58_value (d0 :: ds') 0) with (b58_value ds' (0 * 58 + d0)) in Hval.
  rewrite b58_value_shift, Hlen' in Hval.
  simpl hd_error.
  assert (Hd : d0 = 18 \/ d0 = 19).
  { revert Hval Hv' Hr.
    let v := eval vm_compute in (58 ^ Z.of_nat 51) in change (58 ^ Z.of_nat 51) with v.
    let v := eval vm_compute in (256 ^ Z.of_nat 37) in change (256 ^ Z.of_nat 37) with v.
    intros. lia. }
  destruct Hd as [-> | ->]; [left | right]; reflexivity.
Qed.

Lemma digits_upper (ds : list Z) (n : nat) :
  Forall (fun d => 0 <= d < 58) ds ->
  match ds with [] => True | d :: _ => d <> 0 end ->
  b58_value ds 0 < 58 ^ Z.of_nat n ->
  (length ds <= n)%nat.
Proof.
  intros Hall Hhead Hx. destruct ds as [|d ds']; [simpl; lia|].
  inversion Hall as [|? ? Hd Hds']; subst.
  pose proof (b58_value_bound ds' Hds') as Hlow.
  change (b58_value (d :: ds') 0) with (b58_value ds' (0 * 58 + d)) in Hx.
  rewrite b58_value_shift in Hx. simpl length. simpl in Hhead.
  destruct (Nat.le_gt_cases (S (length ds')) n) as [|Hgt]; [assumption|exfalso].
  assert (58 ^ Z.of_nat n <= 58 ^ Z.of_nat (length ds')) by (apply Z.pow_le_mono_r; lia).
  nia.
Qed.

Lemma strip_zeros_length (b : bytes) :
  length b = (count_zeros b + length (strip_zeros b))%nat.
Proof.
  rewrite (count_strip_zeros b) at 1. now rewrite length_app, repeat_length.
Qed.

Lemma bytes_to_bigint_lower (bs : bytes) :
  no_leading_zero bs -> bs <> [] ->
  256 ^ Z.of_nat (length bs - 1) <= bytes_to_bigint bs.
Proof.
  intros Hhead Hne. destruct bs as [|h t]; [contradiction|].
  rewrite bytes_to_bigint_cons. simpl in Hhead.
  replace (length (h :: t) - 1)%nat with (length t) by (simpl; lia).
  pose proof (byte_nonzero h Hhead). pose proof (bytes_to_bigint_bound t).
  assert (0 < 256 ^ Z.of_nat (length t)) by (apply Z.pow_pos_nonneg; lia).
  nia.
Qed.

Lemma pow_256_58 (m : nat) : 256 ^ Z.of_nat m <= 58 ^ Z.of_nat (2 * m).
Proof.
  rewrite Nat2Z.inj_mul, Z.pow_mul_r by lia.
  change (58 ^ Z.of_nat 2) with 3364. apply Z.pow_le_mono_l. lia.
Qed.

Lemma encode_length (b : bytes) :
  (length b <= length (encodeBase58 b) <= 2 * length b)%nat.
Proof.
  destruct (encodeBase58_shape b) as (ds & -> & Hall & Hval & Hhead).
  rewrite length_app, repeat_length, length_map, (strip_zeros_length b).
  pose proof (strip_zeros_head b) as Hnz.
  pose proof (bytes_to_bigint_bound (strip_zeros b)) as Hub.
  pose proof (b58_value_bound ds Hall) as Hdb.
  set (s := strip_zeros b) in *. set (m := length s) in *.
  assert (Hne : match ds with [] => True | d :: _ => d <> 0 end)
    by (destruct ds; [exact I | exact Hhead]).
  split.
  - destruct s as [|h t] eqn:Es; [simpl in m; lia|].
    assert (Hlow : 256 ^ Z.of_nat (m - 1) <= bytes_to_bigint (h :: t))
      by (apply bytes_to_bigint_lower; [exact Hnz | discriminate]).
    destruct (Nat.le_gt_cases m (length ds)) as [|Hgt]; [lia|exfalso].
    assert (58 ^ Z.of_nat (length ds) <= 58 ^ Z.of_nat (m - 1))
      by (apply Z.pow_le_mono_r; lia).
    assert (58 ^ Z.of_nat (m - 1) <= 256 ^ Z.of_nat (m - 1))
      by (apply Z.pow_le_mono_l; lia).
    lia.
  - assert (length ds <= 2 * m)%nat; [|lia].
    apply digits_upper; trivial. rewrite Hval.
    pose proof (pow_256_58 m). lia.
Qed.

(** X1: [decodeBase58] returns bytes exactly for the texts over the
    alphabet, and throws [Invalid Base58 character] for every other text. *)
Theorem decodeBase58_throws_iff (str : jsstring) :
  (Forall in_alphabet str /\ exists b, decodeBase58 str = ret b) \/
  (~ Forall in_alphabet str /\
   decodeBase58 str = throw (JsError (js "Invalid Base58 character"))).
Proof.
  destruct (Forall_dec in_alphabet (fun c => in_dec N.eq_dec c ALPHABET) str) as [H|H].
  - left. split; [exact H|]. now apply decodeBase58_outcome.
  - right. split; [exact H|]. now apply decodeBase58_outcome.
Qed.

(** X2: a text that decodes to [b] is the encoding of [b]; with the round
    trip on bytes, the two functions are inverse bijections between byte
    sequences and texts over the alphabet. *)
Theorem base58_text_round_trip (str : jsstring) (b : bytes) :
  decodeBase58 str = ret b -> encodeBase58 b = str.
Proof. apply encode_decode. Qed.

Lemma base58_text_round_trip_zero_key :
  decodeBase58 zero_key = ret (key_blob zero_secret) /\
  encodeBase58 (key_blob zero_secret) = zero_key.
Proof.
  assert (H : decodeBase58 zero_key = ret (key_blob zero_secret))
    by (vm_compute; reflexivity).
  split; [exact H | apply (base58_text_round_trip _ _ H)].
Defined.

(** X3: the encoding of any byte sequence uses only characters of the
    alphabet. *)
Theorem encodeBase58_alphabet (b : bytes) : Forall in_alphabet (encodeBase58 b).
Proof. apply encode_in_alphabet. Qed.

(** X4: different byte sequences have different encodings. *)
Theorem encodeBase58_injective (a b : bytes) :
  encodeBase58 a = encodeBase58 b -> a = b.
Proof. apply encode_inj. Qed.

Lemma encodeBase58_injective_zeros :
  encodeBase58 [x00; x00] = encodeBase58 (repeat x00 2) /\ [x00; x00] = repeat x00 2.
Proof.
  assert (H : encodeBase58 [x00; x00] = encodeBase58 (repeat x00 2)) by reflexivity.
  split; [exact H | apply (encodeBase58_injective _ _ H)].
Defined.

(** X5: every leading zero byte becomes one leading ['1']; in particular
    [n] zero bytes encode as [n] times ['1'] and the empty sequence as the
    empty text. *)
Theorem encodeBase58_leading_zeros (n : nat) (b : bytes) :
  encodeBase58 (repeat x00 n ++ b) = repeat 49%N n ++ encodeBase58 b /\
  encodeBase58 (repeat x00 n) = repeat 49%N n.
Proof.
  split; [apply encode_zeros|].
  rewrite <- (app_nil_r (repeat x00 n)), encode_zeros. apply app_nil_r.
Qed.

(** X6: an encoding has at least as many characters as there are bytes and
    at most twice as many. *)
Theorem encodeBase58_length (b : bytes) :
  (length b <= length (encodeBase58 b) <= 2 * length b)%nat.
Proof. apply encode_length. Qed.

(** X7: a key string that [validateWIF] accepts has exactly 52 characters
    and starts with [K] or [L]. *)
Theorem accepted_key_shape (wif : jsstring) :
  outcome (validateWIF wif) = inr true ->
  length wif = 52%nat /\ (hd_error wif = Some 75%N \/ hd_error wif = Some 76%N).
Proof.
  intros H. destruct (validateWIF_true_inv wif H) as (d & Hd & Hlen & H0 & _).
  now apply (key_text_shape wif d).
Qed.

Lemma accepted_key_shape_zero :
  outcome (validateWIF zero_key) = inr true /\
  length zero_key = 52%nat /\
  (hd_error zero_key = Some 75%N \/ hd_error zero_key = Some 76%N).
Proof.
  split; [vm_compute; reflexivity|].
  apply (accepted_key_shape zero_key). vm_compute. reflexivity.
Defined.

(** X8: a string with a character outside the alphabet, or whose length
    is not 52, is rejected by [validateWIF] without any host call: nothing
    is hashed. *)
Theorem malformed_key_rejected_without_host_call (wif : jsstring) :
  ~ Forall in_alphabet wif \/ length wif <> 52%nat ->
  validateWIF wif = ([], inr false).
Proof.
  intros Hbad. rewrite validateWIF_run.
  destruct (decodeBase58_cases wif) as [[e E]|[d E]]; rewrite E; [reflexivity|].
  unfold outcome, snd. destruct (structure_ok d) eqn:S; [exfalso|reflexivity].
  apply structure_ok_iff in S. destruct S as (Hlen & H0 & _).
  destruct (key_text_shape wif d E Hlen H0) as [H52 _].
  destruct Hbad as [Hbad|Hbad]; [|contradiction].
  rewrite (proj2 (decodeBase58_outcome wif) Hbad) in E. discriminate.
Qed.

Lemma placeholder_key_rejected :
  (~ Forall in_alphabet (js "DERIVING...") \/ length (js "DERIVING...") <> 52%nat) /\
  validateWIF (js "DERIVING...") = ([], inr false).
Proof.
  assert (H : ~ Forall in_alphabet (js "DERIVING...") \/
              length (js "DERIVING...") <> 52%nat) by (right; discriminate).
  split; [exact H|]. apply (malformed_key_rejected_without_host_call _ H).
Defined.

Lemma decoded_key_blob (d : bytes) :
  length d = 38%nat ->
  nth_error d 0 = Some x80 -> nth_error d 33 = Some x01 ->
  slice_from d 34 = slice (double_digest (slice d 0 34)) 0 4 ->
  d = key_blob (slice d 1 33) /\ length (slice d 1 33) = 32%nat.
Proof.
  intros Hlen H0 H33 Hsum. explode Hlen d.
  simpl in H0, H33. injection H0 as ->. injection H33 as ->.
  split; [|reflexivity].
  unfold key_blob, key_payload.
  change (slice _ 1 33) with [b0; b1; b2; b3; b4; b5; b6; b7; b8; b9; b10; b11; b12;
    b13; b14; b15; b16; b17; b18; b19; b20; b21; b22; b23; b24; b25; b26; b27; b28;
    b29; b30; b31].
  cbn [app]. unfold slice at 2 in Hsum. cbn [skipn firstn Nat.sub] in Hsum.
  rewrite <- Hsum. reflexivity.
Qed.

(** X9: a key string that [validateWIF] accepts is the key string of the
    32-byte secret it carries: building the key from that secret gives the
    same text back, and its identity is the identity of that secret. *)
Theorem accepted_key_is_canonical (wif : jsstring) :
  outcome (validateWIF wif) = inr true ->
  exists secret,
    length secret = 32%nat /\
    wif = encodeBase58 (key_blob secret) /\
    outcome (decodeBase58 wif) = inr (key_blob secret) /\
    outcome (wif_of_privKey secret) = inr wif /\
    outcome (deriveAddressFromWIF wif) = inr (encodeBase58 (identity_blob secret)).
Proof.
  intros H.
  destruct (validateWIF_true_inv wif H) as (d & Hd & Hlen & H0 & H33 & Hsum & _).
  destruct (decoded_key_blob d Hlen H0 H33 Hsum) as [Hblob Hsec].
  exists (slice d 1 33).
  assert (Hwif : wif = encodeBase58 (key_blob (slice d 1 33))).
  { rewrite <- Hblob. symmetry. now apply encode_decode. }
  repeat split; trivial.
  - now rewrite Hd, <- Hblob.
  - rewrite wif_of_privKey_run by exact Hsec. now rewrite <- Hwif.
  - rewrite Hwif at 1. now apply deriveAddressFromWIF_key_blob.
Qed.

(** The key string of the all-zero secret. *)
Lemma accepted_key_is_canonical_zero :
  outcome (validateWIF zero_key) = inr true /\
  exists secret,
    length secret = 32%nat /\
    zero_key = encodeBase58 (key_blob secret) /\
    outcome (decodeBase58 zero_key) = inr (key_blob secret) /\
    outcome (wif_of_privKey secret) = inr zero_key /\
    outcome (deriveAddressFromWIF zero_key) = inr (encodeBase58 (identity_blob secret)).
Proof.
  split; [vm_compute; reflexivity|].
  apply (accepted_key_is_canonical zero_key). vm_compute. reflexivity.
Defined.

(** X10: two 32-byte secrets with the same key string are equal. *)
Theorem key_text_determines_secret (s1 s2 : bytes) :
  length s1 = 32%nat -> length s2 = 32%nat ->
  outcome (wif_of_privKey s1) = outcome (wif_of_privKey s2) ->
  s1 = s2.
Proof.
  intros H1 H2 H.
  rewrite !wif_of_privKey_run in H by assumption.
  simpl in H. injection H as H. apply encode_inj in H.
  rewrite <- (key_blob_secret s1 H1), <- (key_blob_secret s2 H2). now rewrite H.
Qed.

Lemma key_text_determines_secret_zero :
  length zero_secret = 32%nat /\ length zero_secret = 32%nat /\
  outcome (wif_of_privKey zero_secret) = outcome (wif_of_privKey zero_secret) /\
  zero_secret = zero_secret.
Proof.
  repeat (split; [reflexivity|]).
  apply (key_text_determines_secret zero_secret zero_secret); reflexivity.
Defined.

Lemma identity_digits_fit :
  forallb (fun k => 256 ^ Z.of_nat (24 - k) <=? 58 ^ Z.of_nat (33 - k)) (seq 0 25) = true.
Proof. vm_compute. reflexivity. Qed.

Lemma encodeBase58_24_bytes (rest : bytes) :
  length rest = 24%nat -> (length (encodeBase58 rest) <= 33)%nat.
Proof.
  intros Hlen.
  destruct (encodeBase58_shape rest) as (ds & -> & Hall & Hval & Hhead).
  rewrite length_app, repeat_length, length_map.
  pose proof (strip_zeros_length rest) as Hsplit. rewrite Hlen in Hsplit.
  set (k := count_zeros rest) in *.
  assert (Hk : In k (seq 0 25)) by (apply in_seq; lia).
  pose proof (proj1 (forallb_forall _ _) identity_digits_fit k Hk) as Hfit.
  apply Z.leb_le in Hfit.
  pose proof (bytes_to_bigint_bound (strip_zeros rest)) as Hub.
  replace (length (strip_zeros rest)) with (24 - k)%nat in Hub by lia.
  assert (length ds <= 33 - k)%nat; [|lia].
  apply digits_upper; trivial.
  - destruct ds; [exact I | exact Hhead].
  - lia.
Qed.

(** X11: for every private key the identity string is returned, starts
    with ['1'], has between 25 and 34 characters and uses only the
    alphabet. *)
Theorem identity_text_shape (privKey : bytes) :
  exists identity,
    outcome (deriveAddressFromPrivKey privKey) = inr identity /\
    hd_error identity = Some 49%N /\
    (25 <= length identity <= 34)%nat /\
    Forall in_alphabet identity.
Proof.
  exists (encodeBase58 (identity_blob privKey)).
  split; [now rewrite deriveAddressFromPrivKey_run|].
  pose proof (encode_length (identity_blob privKey)) as Hlen.
  rewrite identity_blob_length in Hlen.
  assert (Hshape : exists rest, identity_blob privKey = repeat x00 1 ++ rest /\
                                length rest = 24%nat).
  { pose proof (identity_blob_length privKey) as H25.
    unfold identity_blob, identity_payload in *. simpl app in *.
    eexists. split; [reflexivity|]. simpl in H25. lia. }
  destruct Hshape as (rest & Hblob & Hrest).
  rewrite Hblob, encode_zeros in *.
  pose proof (encodeBase58_24_bytes rest Hrest).
  split; [reflexivity|]. split; [simpl in *; lia|].
  rewrite <- encode_zeros. apply encode_in_alphabet.
Qed.

(** X12: the key derived from any seed is accepted by [validateWIF], and
    deriving its identity and signing with it succeed for every amount and
    destination. *)
Theorem derived_key_usable
    (seed : jsstring) (amount : number) (destination : jsstring) (now : Z) :
  exists wif,
    outcome (deriveWIF seed) = inr wif /\
    outcome (validateWIF wif) = inr true /\
    (exists identity, outcome (deriveAddressFromWIF wif) = inr identity) /\
    (exists tx, outcome (signSequestrationTx wif amount destination now) = inr tx).
Proof.
  set (secret := SHA256.hash (utf8_encode (seed ++ WIF_TAG))).
  assert (Hsec : length secret = 32%nat) by apply hash_length.
  exists (encodeBase58 (key_blob secret)).
  assert (Hv : outcome (validateWIF (encodeBase58 (key_blob secret))) = inr true)
    by (now rewrite key_blob_validates).
  split; [apply deriveWIF_run|]. split; [exact Hv|].
  split.
  - exists (encodeBase58 (identity_blob secret)).
    now apply deriveAddressFromWIF_key_blob.
  - destruct (validateWIF_true_inv _ Hv) as (d & Hd & Hlen & _ & _ & _ & Hrun).
    rewrite (signSequestrationTx_valid _ d amount destination now Hd Hlen Hrun).
    eexists. reflexivity.
Qed.

Lemma hex_pair_chars (b : byte) : forallb is_lower_hex (hex_pair b) = true.
Proof. destruct b; reflexivity. Qed.

Lemma hex_of_bytes_chars (bs : bytes) : forallb is_lower_hex (hex_of_bytes bs) = true.
Proof.
  induction bs as [|b bs IH]; [reflexivity|].
  unfold hex_of_bytes in *.
  change (flat_map hex_pair (b :: bs)) with (hex_pair b ++ flat_map hex_pair bs).
  now rewrite forallb_app, hex_pair_chars, IH.
Qed.

(** X13: on an accepted key, signing makes exactly these host calls, in
    this order: the two digests of the key checksum, one key import of the
    32-byte secret, one clock read, one HMAC over
    [amount:destination:time], and the two digests of the raw record. *)
Theorem sign_host_calls
    (wif : jsstring) (amount : number) (destination : jsstring) (now : Z) :
  outcome (validateWIF wif) = inr true ->
  exists secret tx,
    length secret = 32%nat /\
    outcome (decodeBase58 wif) = inr (key_blob secret) /\
    outcome (signSequestrationTx wif amount destination now) = inr tx /\
    trace (signSequestrationTx wif amount destination now) =
      [EvDigest (key_payload secret); EvDigest (SHA256.hash (key_payload secret));
       EvImportKey secret;
       EvNow now;
       EvHmacSign secret
         (utf8_encode (NumberToString.toString amount ++ js ":" ++ destination ++
                       js ":" ++ NumberToString.toString (number_of_Z now)));
       EvDigest (utf8_encode (raw tx));
       EvDigest (SHA256.hash (utf8_encode (raw tx)))] /\
    signature tx = hex_of_bytes (SHA256.hmac secret
         (utf8_encode (NumberToString.toString amount ++ js ":" ++ destination ++
                       js ":" ++ NumberToString.toString (number_of_Z now)))).
Proof.
  intros H.
  destruct (validateWIF_true_inv wif H) as (d & Hd & Hlen & H0 & H33 & Hsum & Hrun).
  destruct (decoded_key_blob d Hlen H0 H33 Hsum) as [Hblob Hsec].
  exists (slice d 1 33), (signed_tx (slice d 1 33) amount destination now).
  rewrite (signSequestrationTx_valid wif d amount destination now Hd Hlen Hrun).
  split; [exact Hsec|]. split; [now rewrite Hd, <- Hblob|].
  split; [reflexivity|]. split; [|reflexivity].
  unfold trace, fst. rewrite Hblob at 1.
  rewrite key_blob_payload by exact Hsec. reflexivity.
Qed.

Lemma sign_host_calls_sample :
  outcome (validateWIF zero_key) = inr true /\
  exists secret tx,
    length secret = 32%nat /\
    outcome (decodeBase58 zero_key) = inr (key_blob secret) /\
    outcome (signSequestrationTx zero_key amount_1_5 zero_identity sample_time) = inr tx /\
    trace (signSequestrationTx zero_key amount_1_5 zero_identity sample_time) =
      [EvDigest (key_payload secret); EvDigest (SHA256.hash (key_payload secret));
       EvImportKey secret;
       EvNow sample_time;
       EvHmacSign secret
         (utf8_encode (NumberToString.toString amount_1_5 ++ js ":" ++ zero_identity ++
                       js ":" ++ NumberToString.toString (number_of_Z sample_time)));
       EvDigest (utf8_encode (raw tx));
       EvDigest (SHA256.hash (utf8_encode (raw tx)))] /\
    signature tx = hex_of_bytes (SHA256.hmac secret
         (utf8_encode (NumberToString.toString amount_1_5 ++ js ":" ++ zero_identity ++
                       js ":" ++ NumberToString.toString (number_of_Z sample_time)))).
Proof.
  split; [vm_compute; reflexivity|].
  apply (sign_host_calls zero_key amount_1_5 zero_identity sample_time).
  vm_compute. reflexivity.
Defined.

(** X14: the tag and the identifier of a signed transaction are 64
    lowercase hexadecimal characters each, so [substring(0, 64)] embeds the
    whole tag in the raw record. *)
Theorem tag_and_identifier_are_hex
    (wif : jsstring) (amount : number) (destination : jsstring) (now : Z)
    (tx : SignedTx) :
  outcome (signSequestrationTx wif amount destination now) = inr tx ->
  length (signature tx) = 64%nat /\ forallb is_lower_hex (signature tx) = true /\
  length (txid tx) = 64%nat /\ forallb is_lower_hex (txid tx) = true /\
  firstn 64 (signature tx) = signature tx.
Proof.
  intros H. destruct (signSequestrationTx_inr _ _ _ _ _ H) as (d & _ & _ & ->).
  pose proof (signed_tx_tag_length (slice d 1 33) amount destination now) as Hlen.
  split; [exact Hlen|].
  split; [apply hex_of_bytes_chars|].
  split; [unfold signed_tx; cbn [txid];
          now rewrite hex_of_bytes_length, length_rev, double_digest_length|].
  split; [apply hex_of_bytes_chars|].
  apply firstn_all2. rewrite Hlen. lia.
Qed.

Lemma tag_and_identifier_are_hex_sample :
  outcome (signSequestrationTx zero_key amount_1_5 zero_identity sample_time)
    = inr (signed_tx zero_secret amount_1_5 zero_identity sample_time) /\
  let tx := signed_tx zero_secret amount_1_5 zero_identity sample_time in
  length (signature tx) = 64%nat /\ forallb is_lower_hex (signature tx) = true /\
  length (txid tx) = 64%nat /\ forallb is_lower_hex (txid tx) = true /\
  firstn 64 (signature tx) = signature tx.
Proof.
  split; [vm_compute; reflexivity|].
  apply (tag_and_identifier_are_hex zero_key amount_1_5 zero_identity sample_time).
  vm_compute. reflexivity.
Defined.

(** X15: the amount field consists of lowercase hexadecimal digits exactly
    when [Math.floor(amount * 100000000)] is a non-negative integer; a
    negative, NaN or infinite result leaves a sign or letters in it. *)
Theorem amount_field_hex_iff (amount : number) :
  forallb is_lower_hex (amountSats amount) = true <->
  exists v, Math_floor (number_mul amount (number_of_Z 100000000)) = IntVal v /\ 0 <= v.
Proof.
  unfold amountSats, padStart0.
  destruct (Math_floor (number_mul amount (number_of_Z 100000000))) as [|s|v].
  - split; [intros H; rewrite hex_chars_zeros in H; discriminate H|].
    intros (v & Hv & _). discriminate.
  - split; [intros H; rewrite hex_chars_zeros in H; destruct s; discriminate H|].
    intros (v & Hv & _). discriminate.
  - rewrite hex_chars_zeros. unfold toString16.
    destruct (Z.ltb_spec v 0) as [Hneg|Hpos].
    + split; [intros H; discriminate H|]. intros (v' & Hv & Hge). injection Hv as <-. lia.
    + split; [intros _; eauto|]. intros _. now apply hex_of_Z_spec.
Qed.

(** X16: with a destination of at least 40 characters whose first 40 are
    lowercase hexadecimal and an amount whose [floor(amount * 1e8)] lies in
    [0, 2^64), the raw record is 168 lowercase hexadecimal characters. *)
Theorem well_formed_record
    (wif : jsstring) (amount : number) (destination : jsstring) (now : Z)
    (tx : SignedTx) (v : Z) :
  outcome (signSequestrationTx wif amount destination now) = inr tx ->
  Math_floor (number_mul amount (number_of_Z 100000000)) = IntVal v ->
  0 <= v < 2 ^ 64 ->
  (40 <= length destination)%nat ->
  forallb is_lower_hex (firstn 40 destination) = true ->
  length (raw tx) = 168%nat /\ forallb is_lower_hex (raw tx) = true.
Proof.
  intros H Hfloor Hv Hlen Hhex.
  destruct (signSequestrationTx_inr _ _ _ _ _ H) as (d & _ & _ & ->).
  assert (Hfield : length (amountSats amount) = 16%nat /\
                   forallb is_lower_hex (amountSats amount) = true).
  { unfold amountSats. rewrite Hfloor.
    destruct (amount_field_in_range v Hv) as (? & ? & _). auto. }
  destruct Hfield as [Hf16 Hfhex].
  unfold signed_tx. cbn [raw signature]. unfold raw_record. split.
  - rewrite !length_app, !length_firstn, hex_of_bytes_length, hmac_length, Hf16.
    change (length (js "0200000001")) with 10%nat.
    change (length (js "00000000ffffffff01")) with 18%nat.
    change (length (js "1976a914")) with 8%nat.
    change (length (js "88ac00000000")) with 12%nat.
    lia.
  - rewrite !forallb_app, Hfhex, Hhex.
    rewrite firstn_all2
      by (rewrite hex_of_bytes_length, hmac_length; lia).
    rewrite hex_of_bytes_chars. reflexivity.
Qed.

Lemma well_formed_record_sample :
  outcome (signSequestrationTx zero_key amount_1_5 hex_destination sample_time)
    = inr (signed_tx zero_secret amount_1_5 hex_destination sample_time) /\
  Math_floor (number_mul amount_1_5 (number_of_Z 100000000)) = IntVal 150000000 /\
  0 <= 150000000 < 2 ^ 64 /\
  (40 <= length hex_destination)%nat /\
  forallb is_lower_hex (firstn 40 hex_destination) = true /\
  length (raw (signed_tx zero_secret amount_1_5 hex_destination sample_time)) = 168%nat /\
  forallb is_lower_hex (raw (signed_tx zero_secret amount_1_5 hex_destination sample_time))
    = true.
Proof.
  assert (H1 : outcome (signSequestrationTx zero_key amount_1_5 hex_destination sample_time)
               = inr (signed_tx zero_secret amount_1_5 hex_destination sample_time))
    by (vm_compute; reflexivity).
  assert (H2 : Math_floor (number_mul amount_1_5 (number_of_Z 100000000))
               = IntVal 150000000) by (vm_compute; reflexivity).
  assert (H3 : 0 <= 150000000 < 2 ^ 64) by lia.
  assert (H4 : (40 <= length hex_destination)%nat) by (vm_compute; lia).
  assert (H5 : forallb is_lower_hex (firstn 40 hex_destination) = true)
    by (vm_compute; reflexivity).
  repeat (split; [assumption|]).
  apply (well_formed_record zero_key amount_1_5 hex_destination sample_time _ _ H1 H2 H3 H4 H5).
Defined.

(* ------------------------------------------------------------------ *)
(** ** The vault handlers *)

Lemma outcome_bind_inr {A B} (m : Comp A) (f : A -> Comp B) (a : A) :
  outcome m = inr a -> outcome (bind m f) = outcome (f a).
Proof.
  destruct m as [t [e|x]]; simpl; intros H; [discriminate|].
  injection H as ->. unfold bind. now destruct (f a).
Qed.

Lemma outcome_bind_inl {A B} (m : Comp A) (f : A -> Comp B) (e : exn) :
  outcome m = inl e -> outcome (bind m f) = inl e.
Proof.
  destruct m as [t [e'|x]]; simpl; intros H; [|discriminate]. congruence.
Qed.

Lemma outcome_try_inr {A} (m : Comp A) (h : exn -> Comp A) (a : A) :
  outcome m = inr a -> outcome (try_catch m h) = inr a.
Proof.
  destruct m as [t [e|x]]; simpl; intros H; [discriminate|]. exact H.
Qed.

Lemma outcome_try_inl {A} (m : Comp A) (h : exn -> Comp A) (e : exn) :
  outcome m = inl e -> outcome (try_catch m h) = outcome (h e).
Proof.
  destruct m as [t [e'|x]]; simpl; intros H; [|discriminate].
  injection H as ->. unfold try_catch. now destruct (h e).
Qed.

Lemma valid_key_runs (key : jsstring) :
  outcome (validateWIF key) = inr true ->
  exists secret,
    length secret = 32%nat /\
    key = encodeBase58 (key_blob secret) /\
    outcome (deriveAddressFromWIF key) = inr (encodeBase58 (identity_blob secret)) /\
    forall amount destination now,
      outcome (signSequestrationTx key amount destination now)
      = inr (signed_tx secret amount destination now).
Proof.
  intros H.
  destruct (validateWIF_true_inv key H) as (d & Hd & Hlen & H0 & H33 & Hsum & Hrun).
  destruct (decoded_key_blob d Hlen H0 H33 Hsum) as [Hblob Hsec].
  exists (slice d 1 33).
  assert (Hkey : key = encodeBase58 (key_blob (slice d 1 33))).
  { rewrite <- Hblob. symmetry. now apply encode_decode. }
  repeat split; trivial.
  - rewrite Hkey at 1. now apply deriveAddressFromWIF_key_blob.
  - intros amount destination now.
    now rewrite (signSequestrationTx_valid key d amount destination now Hd Hlen Hrun).
Qed.


Lemma initVault_run (random : number) (now : Z) (s : App.State) :
  exists key addr,
    outcome (App.initVault random now s) = inr (App.setVault (App.with_key addr key) s) /\
    outcome (validateWIF key) = inr true /\
    outcome (deriveAddressFromWIF key) = inr addr /\
    App.vault_ok (App.vault (App.setVault (App.with_key addr key) s)).
Proof.
  set (seed := NumberToString.toString random ++ NumberToString.toString (number_of_Z now)).
  set (secret := SHA256.hash (utf8_encode (seed ++ WIF_TAG))).
  assert (Hsec : length secret = 32%nat) by apply hash_length.
  exists (encodeBase58 (key_blob secret)), (encodeBase58 (identity_blob secret)).
  assert (Hv : outcome (validateWIF (encodeBase58 (key_blob secret))) = inr true)
    by (now rewrite key_blob_validates).
  assert (Ha : outcome (deriveAddressFromWIF (encodeBase58 (key_blob secret)))
               = inr (encodeBase58 (identity_blob secret)))
    by (now apply deriveAddressFromWIF_key_blob).
  split; [|split; [exact Hv|split; [exact Ha|]]].
  - unfold App.initVault.
    rewrite (outcome_bind_inr _ _ (number_of_Z now)) by reflexivity.
    rewrite (outcome_bind_inr _ _ _ (deriveWIF_run seed)).
    rewrite (outcome_bind_inr _ _ _ Ha). reflexivity.
  - intros _. simpl. auto.
Qed.


Lemma handleRecover_run (s : App.State) :
  match outcome (validateWIF (App.recoveryWif s)) with
  | inr true =>
      exists addr,
        outcome (deriveAddressFromWIF (App.recoveryWif s)) = inr addr /\
        outcome (App.handleRecover s) =
          inr (App.setRecoveryWif []
                 (App.setIsRecoveryOpen false
                    (App.setVault (App.with_key addr (App.recoveryWif s))
                       (App.setRecoveryError None s))))
  | inr false =>
      outcome (App.handleRecover s) =
        inr (App.setRecoveryError (Some (js "IDENTITY_FAIL: Corrupt checksum.")) s)
  | inl _ => False
  end.
Proof.
  destruct (validateWIF_returns (App.recoveryWif s)) as [[|] Hb]; rewrite Hb.
  - destruct (valid_key_runs _ Hb) as (secret & _ & _ & Ha & _).
    exists (encodeBase58 (identity_blob secret)). split; [exact Ha|].
    unfold App.handleRecover. apply outcome_try_inr.
    rewrite (outcome_bind_inr _ _ _ Hb). cbn [negb].
    rewrite (outcome_bind_inr _ _ _ Ha). reflexivity.
  - unfold App.handleRecover.
    erewrite outcome_try_inr; [reflexivity|].
    rewrite (outcome_bind_inr _ _ _ Hb). reflexivity.
Qed.

Lemma prepare_run (now stamp : Z) (s : App.State) :
  if number_leb (App.pending s) (number_of_Z 0)
  then App.prepareSequestrationTx now stamp s = ret (s, [])
  else
    exists s',
      outcome (App.prepareSequestrationTx now stamp s) = inr (s', [recovery_timer]) /\
      App.vault s' = App.with_isRecovering true (App.vault s) /\
      App.vault (App.fire recovery_timer s') = App.with_isRecovering false (App.vault s) /\
      match outcome (validateWIF (App.wif (App.vault s))) with
      | inr true =>
          exists tx,
            outcome (signSequestrationTx (App.wif (App.vault s)) (App.pending s)
                       (App.address (App.vault s)) now) = inr tx /\
            App.activeTx s' = Some (staged_tx tx (App.pending s) stamp) /\
            App.isConfirmingBroadcast s'
              = (negb (App.isAutoCollect s) || App.isConfirmingBroadcast s)
      | _ =>
          App.activeTx s' = App.activeTx s /\
          App.isConfirmingBroadcast s' = App.isConfirmingBroadcast s /\
          App.insight s' = js "SIGNING_ERROR: Invalid WIF key. Signing rejected."
      end.
Proof.
  unfold App.prepareSequestrationTx.
  destruct (number_leb (App.pending s) (number_of_Z 0)); [reflexivity|].
  destruct (validateWIF_returns (App.wif (App.vault s))) as [[|] Hb]; rewrite Hb.
  - destruct (valid_key_runs _ Hb) as (secret & _ & _ & _ & Hsign).
    specialize (Hsign (App.pending s) (App.address (App.vault s)) now).
    destruct (signed_tx secret (App.pending s) (App.address (App.vault s)) now)
      as [tx_id tx_raw tx_sig].
    eexists. split; [|split; [|split]].
    + erewrite outcome_bind_inr; [reflexivity|].
      apply outcome_try_inr.
      rewrite (outcome_bind_inr _ _ _ Hsign). cbv iota beta.
      rewrite (outcome_bind_inr _ _ (number_of_Z stamp)) by reflexivity.
      reflexivity.
    + destruct (App.isAutoCollect s); reflexivity.
    + destruct (App.isAutoCollect s); reflexivity.
    + exists (Build_SignedTx tx_id tx_raw tx_sig).
      split; [exact Hsign|].
      destruct (App.isAutoCollect s); split; reflexivity.
  - pose proof (signSequestrationTx_invalid (App.wif (App.vault s)) (App.pending s)
                  (App.address (App.vault s)) now Hb) as Hsign.
    apply (f_equal outcome) in Hsign. simpl outcome in Hsign.
    eexists. split; [|split; [|split]].
    + erewrite outcome_bind_inr; [reflexivity|].
      erewrite outcome_try_inl; [reflexivity|].
      now rewrite (outcome_bind_inl _ _ _ Hsign).
    + reflexivity.
    + reflexivity.
    + repeat split.
Qed.

Lemma broadcast_run (now : Z) (s : App.State) :
  match App.activeTx s with
  | None => App.broadcastTransaction now s = ret s
  | Some tx =>
      exists s',
        outcome (App.broadcastTransaction now s) = inr s' /\
        App.txHistory s' = firstn 20 (tx :: App.txHistory s) /\
        (length (App.txHistory s') <= 20)%nat /\
        App.mempool s' = [] /\ App.activeTx s' = None /\
        App.isBroadcasting s' = false /\ App.isConfirmingBroadcast s' = false /\
        App.vault s' = App.with_settlement (App.amount tx) (number_of_Z now) (App.vault s)
  end.
Proof.
  unfold App.broadcastTransaction. destruct (App.activeTx s) as [tx|]; [|reflexivity].
  eexists. split; [rewrite (outcome_bind_inr _ _ (number_of_Z now)) by reflexivity;
                   reflexivity|].
  cbn [App.txHistory App.setInsight App.setIsBroadcasting App.setActiveTx App.setMempool
       App.setVault App.setTxHistory App.setIsConfirmingBroadcast App.mempool App.activeTx
       App.isBroadcasting App.isConfirmingBroadcast App.vault].
  repeat split. unfold slice. cbn [skipn Nat.sub]. rewrite length_firstn. lia.
Qed.

Lemma vault_ok_same_key (v v' : App.VaultState) :
  App.wif v' = App.wif v -> App.address v' = App.address v ->
  App.isWifValid v' = App.isWifValid v ->
  App.vault_ok v -> App.vault_ok v'.
Proof.
  unfold App.vault_ok. intros -> -> ->. auto.
Qed.

Lemma vault_ok_with_key (addr key : jsstring) (v : App.VaultState) :
  outcome (validateWIF key) = inr true ->
  outcome (deriveAddressFromWIF key) = inr addr ->
  App.vault_ok (App.with_key addr key v).
Proof. intros Hv Ha _. simpl. auto. Qed.




(** [broadcastTransaction] does nothing without an active
    transaction.  Otherwise the transaction becomes the newest entry of a
    history of at most 20, the mempool and the active transaction are
    cleared, and of the vault only the balance and the consolidation time
    change. *)
Theorem broadcastTransaction_outcome (now : Z) (s : App.State) :
  match App.activeTx s with
  | None => App.broadcastTransaction now s = ret s
  | Some tx =>
      exists s',
        outcome (App.broadcastTransaction now s) = inr s' /\
        App.txHistory s' = firstn 20 (tx :: App.txHistory s) /\
        (length (App.txHistory s') <= 20)%nat /\
        App.mempool s' = [] /\ App.activeTx s' = None /\
        App.isBroadcasting s' = false /\ App.isConfirmingBroadcast s' = false /\
        App.vault s' = App.with_settlement (App.amount tx) (number_of_Z now) (App.vault s)
  end.
Proof. apply broadcast_run. Qed.

(** X20: every handler keeps the vault flag true to the key: from a state
    in which [isWifValid] implies that the key is accepted and the address
    is its identity, [initVault], [handleRecover], [prepareSequestrationTx]
    (and its timer) and [broadcastTransaction] all return a state in which
    this still holds. *)
Theorem vault_flag_invariant (random : number) (now stamp : Z) (s : App.State) :
  App.vault_ok (App.vault s) ->
  (exists s', outcome (App.initVault random now s) = inr s' /\
              App.vault_ok (App.vault s')) /\
  (exists s', outcome (App.handleRecover s) = inr s' /\
              App.vault_ok (App.vault s')) /\
  (exists s' timers,
      outcome (App.prepareSequestrationTx now stamp s) = inr (s', timers) /\
      App.vault_ok (App.vault s') /\
      Forall (fun t => App.vault_ok (App.vault (App.fire t s'))) timers) /\
  (exists s', outcome (App.broadcastTransaction now s) = inr s' /\
              App.vault_ok (App.vault s')).
Proof.
  intros Hok. split; [|split; [|split]].
  - destruct (initVault_run random now s) as (key & addr & Hrun & _ & _ & Hok').
    eauto.
  - pose proof (handleRecover_run s) as H.
    destruct (outcome (validateWIF (App.recoveryWif s))) as [e|[|]] eqn:Hb;
      [contradiction| |].
    + destruct H as (addr & Ha & Hrun). eexists. split; [exact Hrun|].
      now apply vault_ok_with_key.
    + eexists. split; [exact H|]. exact Hok.
  - pose proof (prepare_run now stamp s) as H.
    destruct (number_leb (App.pending s) (number_of_Z 0)).
    + exists s, []. rewrite H. split; [reflexivity|split; [exact Hok|constructor]].
    + destruct H as (s' & Hrun & Hv & Hfire & _).
      exists s', [recovery_timer]. split; [exact Hrun|]. split.
      * rewrite Hv. now apply (vault_ok_same_key (App.vault s)).
      * constructor; [|constructor]. rewrite Hfire.
        now apply (vault_ok_same_key (App.vault s)).
  - pose proof (broadcast_run now s) as H.
    destruct (App.activeTx s) as [tx|].
    + destruct H as (s' & Hrun & _ & _ & _ & _ & _ & _ & Hv).
      exists s'. split; [exact Hrun|]. rewrite Hv.
      now apply (vault_ok_same_key (App.vault s)).
    + exists s. rewrite H. split; [reflexivity | exact Hok].
Qed.

(** The cells as created, before the vault is initialised. *)
Lemma vault_flag_invariant_initial :
  App.vault_ok (App.vault (App.initial sample_time)) /\
  (exists s', outcome (App.initVault amount_1_5 sample_time (App.initial sample_time)) = inr s' /\
              App.vault_ok (App.vault s')) /\
  (exists s', outcome (App.handleRecover (App.initial sample_time)) = inr s' /\
              App.vault_ok (App.vault s')) /\
  (exists s' timers,
      outcome (App.prepareSequestrationTx sample_time sample_time (App.initial sample_time))
        = inr (s', timers) /\
      App.vault_ok (App.vault s') /\
      Forall (fun t => App.vault_ok (App.vault (App.fire t s'))) timers) /\
  (exists s', outcome (App.broadcastTransaction sample_time (App.initial sample_time)) = inr s' /\
              App.vault_ok (App.vault s')).
Proof.
  assert (H : App.vault_ok (App.vault (App.initial sample_time)))
    by (intros Hflag; simpl in Hflag; discriminate Hflag).
  split; [exact H|].
  apply (vault_flag_invariant amount_1_5 sample_time sample_time _ H).
Defined.

(** X21: when the vault flag is true to the key, the auto-collect effect
    either leaves the state alone or records a signed transaction for the
    pending amount, without opening the confirmation dialog; it never ends in
    a signing error. *)
Theorem autoCollect_signs_or_skips (now stamp : Z) (s : App.State) :
  App.vault_ok (App.vault s) ->
  exists s' timers,
    outcome (App.autoCollect now stamp s) = inr (s', timers) /\
    ((s' = s /\ timers = []) \/
     (exists tx,
        outcome (signSequestrationTx (App.wif (App.vault s)) (App.pending s)
                   (App.address (App.vault s)) now) = inr tx /\
        App.activeTx s' = Some (staged_tx tx (App.pending s) stamp) /\
        App.isConfirmingBroadcast s' = App.isConfirmingBroadcast s /\
        timers = [recovery_timer])).
Proof.
  intros Hok. unfold App.autoCollect.
  destruct (App.isAutoCollect s) eqn:Hauto; cbn [andb];
    [|exists s, []; split; [reflexivity | left; auto]].
  destruct ((5 <=? length (App.mempool s))%nat); cbn [andb];
    [|exists s, []; split; [reflexivity | left; auto]].
  destruct (App.activeTx s) as [tx|] eqn:Hact; cbn [andb];
    [exists s, []; split; [reflexivity | left; auto]|].
  destruct (App.isRecovering (App.vault s)); cbn [andb negb];
    [exists s, []; split; [reflexivity | left; auto]|].
  destruct (App.isBroadcasting s); cbn [andb negb];
    [exists s, []; split; [reflexivity | left; auto]|].
  destruct (App.isWifValid (App.vault s)) eqn:Hflag;
    [|exists s, []; split; [reflexivity | left; auto]].
  destruct (Hok Hflag) as [Hv _].
  pose proof (prepare_run now stamp s) as H.
  destruct (number_leb (App.pending s) (number_of_Z 0)).
  - exists s, []. rewrite H. split; [reflexivity | left; auto].
  - destruct H as (s' & Hrun & _ & _ & Hstaged). rewrite Hv in Hstaged.
    destruct Hstaged as (tx & Hsign & Htx & Hconf). rewrite Hauto in Hconf.
    exists s', [recovery_timer]. split; [exact Hrun|]. right. exists tx. auto.
Qed.

(** The ready vault. *)
Lemma autoCollect_signs_ready_state :
  App.vault_ok (App.vault ready_state) /\
  exists s' timers,
    outcome (App.autoCollect sample_time sample_time ready_state) = inr (s', timers) /\
    ((s' = ready_state /\ timers = []) \/
     (exists tx,
        outcome (signSequestrationTx (App.wif (App.vault ready_state))
                   (App.pending ready_state)
                   (App.address (App.vault ready_state)) sample_time) = inr tx /\
        App.activeTx s' = Some (staged_tx tx (App.pending ready_state) sample_time) /\
        App.isConfirmingBroadcast s' = App.isConfirmingBroadcast ready_state /\
        timers = [recovery_timer])).
Proof.
  assert (H : App.vault_ok (App.vault ready_state)).
  { intros _. split; vm_compute; reflexivity. }
  split; [exact H|].
  apply (autoCollect_signs_or_skips sample_time sample_time ready_state H).
Defined.

Example ready_state_pending :
  App.pending ready_state = number_of_dyadic 15 (-1) /\
  number_leb (App.pending ready_state) (number_of_Z 0) = false.
Proof. split; vm_compute; reflexivity. Qed.
